(** * Bedrock Energistics Core: the machine UI reconciliation engine

    A shallow embedding of [packs/BP/scripts/ui.ts] together with the
    parts of [public_api/src/registry_types.ts] it works on.

    - JavaScript objects used as dictionaries are finite maps ([gmap]) of
      their own keys.  The two objects that [updateEntityUi] builds itself
      are plain object literals, whose [in] test and property reads also
      see the members every object inherits; [hasProperty] and
      [getProperty] model that.  The ordered [Object.entries] walk over the
      UI elements of a machine is an association list.
    - Script-side state (the entity container, the player, the scoreboard
      ledger, [machineChangedItemSlots]) is one [World] record.  Every
      function of the source that touches it is a computation in the monad
      [M], which threads the world, records each call made to the game
      (slot writes, ledger writes, item spawns, player clears) in order, and
      stops at the first [throw].
    - Whole numbers ([startIndex], slot ids, stored amounts) are [Z]; the
      [change] of a storage bar, a number that the source adds up, is a
      binary64 [float] with the machine's addition; the progress value,
      which the source only compares and tests with [Number.isInteger], is
      a rational [Q]. *)

From Stdlib Require Import ZArith QArith Qround Bool List Lia.
From Stdlib Require Import DecimalString DecimalZ DecimalPos.
From Stdlib Require Import PrimFloat FloatOps SpecFloat.
From stdpp Require Import base option list gmap strings.

Local Open Scope Z_scope.

(** ** Item stacks and the game interface *)

(** [ItemStack] of [@minecraft/server], reduced to what the UI code reads:
    the catalog identifier, the amount, the name tag, and [props] standing
    for every other distinguishing property a stack may carry (lore,
    enchantments, damage, ...). *)
Record ItemStack := mkItemStack {
  typeId : string;
  amount : Z;
  nameTag : option string;
  props : list string;
}.

(** [new ItemStack(id)] and [new ItemStack(id, n)]: a clean stack.  Amounts
    stay within what the game accepts for a stack, so the constructor's
    clamping is left out. *)
Definition new_ItemStack (id : string) (n : Z) : ItemStack :=
  {| typeId := id; amount := n; nameTag := None; props := [] |}.

Definition set_nameTag (s : string) (it : ItemStack) : ItemStack :=
  {| typeId := typeId it; amount := amount it;
     nameTag := Some s; props := props it |}.

(** [DimensionLocation]: block coordinates and the dimension. *)
Record DimensionLocation := mkLoc {
  loc_x : Z; loc_y : Z; loc_z : Z; dimension : string;
}.

(** What the script takes from outside [ui.ts]: the game's item predicates
    and two helpers of modules that are not part of the rendering code
    ([getBlockUniqueId] of [./data], [truncateNumber] of [./utils/string]). *)
Class Game := {
  hasTag : ItemStack -> string -> bool;
  isStackableWith : ItemStack -> ItemStack -> bool;
  getBlockUniqueId : DimensionLocation -> string;
  truncateNumber : float -> Z -> string;
}.

(** ** Registry types ([registry_types.ts]) *)

Inductive UiProgressIndicatorElementType := arrow | flame.

Record UiItemSlotElement := mkItemSlot {
  index : Z;
  slotId : Z;
  allowedItems : list string;
}.

Inductive UiElement :=
| storageBar (startIndex : Z)
| itemSlot (options : UiItemSlotElement)
| progressIndicator (indicator : UiProgressIndicatorElementType) (index : Z).

Record UiStorageBarUpdateOptions := mkBarUpdate {
  element : string;
  type : string;
  change : float;
}.

Record UpdateUiHandlerResponse := mkResponse {
  storageBars : option (list UiStorageBarUpdateOptions);
  progressIndicators : option (gmap string Q);
}.

Inductive StorageTypeColor := black | orange | pink | purple | red | yellow.

Record StorageTypeDefinition := mkStorageType {
  st_id : string;
  category : string;
  color : StorageTypeColor;
  name : string;
}.

(** [MachineItemStack]: an item of a machine slot, [typeIndex] being the
    index of its kind in the slot's [allowedItems]. *)
Record MachineItemStack := mkMachineItem {
  typeIndex : Z;
  count : Z;
}.

(** The fields of [InternalRegisteredMachine] that the UI code reads. *)
Record InternalRegisteredMachine := mkMachine {
  id : string;
  persistentEntity : bool;
  uiElements : option (list (string * UiElement));
  updateUiEvent : option string;
}.

(** ** Constants *)

Definition STORAGE_AMOUNT_PER_BAR_SEGMENT : Z := 100.
Definition MAX_MACHINE_STORAGE : Z := STORAGE_AMOUNT_PER_BAR_SEGMENT * 64.

Definition PROGRESS_INDICATOR_MAX_VALUES
    (k : UiProgressIndicatorElementType) : Z :=
  match k with arrow => 16 | flame => 13 end.

Definition STORAGE_TYPE_COLOR_TO_FORMATTING_CODE (c : StorageTypeColor) : string :=
  match c with
  | black => "8" | orange => "6" | pink => "d"
  | purple => "u" | red => "4" | yellow => "e"
  end.

Definition color_toString (c : StorageTypeColor) : string :=
  match c with
  | black => "black" | orange => "orange" | pink => "pink"
  | purple => "purple" | red => "red" | yellow => "yellow"
  end.

Definition indicator_toString (k : UiProgressIndicatorElementType) : string :=
  match k with arrow => "arrow" | flame => "flame" end.

(** [n.toString()] on a whole number. *)
Definition Z_toString (n : Z) : string := NilZero.string_of_int (Z.to_int n).

Definition UI_ITEM_TAG : string := "fluffyalien_energisticscore:ui_item".

(** ** The world and the effects of a call *)

(** One pass works on one machine entity and one player: [inventory] is the
    entity's container, taken to be as large as the UI elements need
    ([registry_types.ts]: "ensure that the machine entity's inventory is
    properly sized"), [slotItems] and [machineStorage] are the scoreboard
    ledger keyed by block id, and [machineChangedItemSlots] is the map of
    that name in [ui.ts]. *)

Record World := mkWorld {
  entity_isValid : bool;
  inventory : gmap Z ItemStack;
  player_cursor : option ItemStack;
  player_inventory : list (option ItemStack);
  slotItems : gmap (string * Z) MachineItemStack;
  machineStorage : gmap (string * string) Z;
  storageTypeRegistry : gmap string StorageTypeDefinition;
  machineChangedItemSlots : gmap string (list Z);
}.

Definition with_inventory (f : gmap Z ItemStack -> gmap Z ItemStack) (w : World) :=
  {| entity_isValid := entity_isValid w;
     inventory := f (inventory w);
     player_cursor := player_cursor w;
     player_inventory := player_inventory w;
     slotItems := slotItems w;
     machineStorage := machineStorage w;
     storageTypeRegistry := storageTypeRegistry w;
     machineChangedItemSlots := machineChangedItemSlots w |}.

Definition with_player (c : option ItemStack) (inv : list (option ItemStack))
    (w : World) :=
  {| entity_isValid := entity_isValid w;
     inventory := inventory w;
     player_cursor := c;
     player_inventory := inv;
     slotItems := slotItems w;
     machineStorage := machineStorage w;
     storageTypeRegistry := storageTypeRegistry w;
     machineChangedItemSlots := machineChangedItemSlots w |}.

Definition with_slotItems
    (f : gmap (string * Z) MachineItemStack -> gmap (string * Z) MachineItemStack)
    (w : World) :=
  {| entity_isValid := entity_isValid w;
     inventory := inventory w;
     player_cursor := player_cursor w;
     player_inventory := player_inventory w;
     slotItems := f (slotItems w);
     machineStorage := machineStorage w;
     storageTypeRegistry := storageTypeRegistry w;
     machineChangedItemSlots := machineChangedItemSlots w |}.

Definition with_changedSlots
    (f : gmap string (list Z) -> gmap string (list Z)) (w : World) :=
  {| entity_isValid := entity_isValid w;
     inventory := inventory w;
     player_cursor := player_cursor w;
     player_inventory := player_inventory w;
     slotItems := slotItems w;
     machineStorage := machineStorage w;
     storageTypeRegistry := storageTypeRegistry w;
     machineChangedItemSlots := f (machineChangedItemSlots w) |}.

(** One call made to the game or to the ledger. *)
Inductive Effect :=
| SetItem (i : Z) (item : ItemStack)
| SetMachineSlot (uid : string) (slot : Z) (item : option MachineItemStack)
    (setChanged : bool)
| SpawnItem (item : ItemStack)
| ClearCursor
| ClearPlayerSlot (i : nat).

(** The errors of [ui.ts], one constructor per [throw]; [InvalidItemType]
    is the game refusing to build an item stack.  The [throw] of the
    progress renderer has two constructors, by what it was given: a number
    ([BadProgressValue]) or, in place of a number, the member that the
    progress object inherits under the element's id
    ([BadProgressMember]). *)
Inductive Error :=
| UnknownStorageType (t : string)
| BadProgressValue (k : UiProgressIndicatorElementType) (v : Q)
| BadProgressMember (k : UiProgressIndicatorElementType) (name : string)
| NoUiDefined (machine : string)
| NoUpdateUiHandler (machine : string)
| InvalidItemType.

Inductive Outcome (A : Type) :=
| Ok (a : A)
| Throw (e : Error).
Arguments Ok {A} a.
Arguments Throw {A} e.

(** A computation: from the world to an outcome, the world it leaves and
    the effects it performed, oldest first.  A [Throw] keeps the world and
    the effects reached so far, as an exception does. *)
Definition M (A : Type) : Type := World -> Outcome A * World * list Effect.

Definition ret {A} (a : A) : M A := fun w => (Ok a, w, []).

Definition throw {A} (e : Error) : M A := fun w => (Throw e, w, []).

Definition bind {A B} (m : M A) (k : A -> M B) : M B := fun w =>
  match m w with
  | (Ok a, w1, e1) =>
      match k a w1 with
      | (r, w2, e2) => (r, w2, e1 ++ e2)
      end
  | (Throw e, w1, e1) => (Throw e, w1, e1)
  end.

Definition gets {A} (f : World -> A) : M A := fun w => (Ok (f w), w, []).

Definition perform (f : World -> World) (e : Effect) : M unit :=
  fun w => (Ok tt, f w, [e]).

Declare Scope ui_scope.
Delimit Scope ui_scope with ui.
Notation "x <- m ;; k" := (bind m (fun x => k))
  (at level 100, m at next level, right associativity) : ui_scope.
Notation "m ;; k" := (bind m (fun _ => k))
  (at level 100, right associativity) : ui_scope.
Local Open Scope ui_scope.

(** Projections of a finished run. *)
Definition outcome_of {A} (r : Outcome A * World * list Effect) : Outcome A :=
  fst (fst r).
Definition world_of {A} (r : Outcome A * World * list Effect) : World :=
  snd (fst r).
Definition effects_of {A} (r : Outcome A * World * list Effect) : list Effect :=
  snd r.

(** The items an effect list spawned into the world, in order. *)
Definition spawned (es : list Effect) : list ItemStack :=
  omap (fun e => match e with SpawnItem it => Some it | _ => None end) es.

Definition is_slot_write (e : Effect) : bool :=
  match e with SetItem _ _ => true | _ => false end.
Definition is_ledger_write (e : Effect) : bool :=
  match e with SetMachineSlot _ _ _ _ => true | _ => false end.
Definition is_player_clear (e : Effect) : bool :=
  match e with ClearCursor | ClearPlayerSlot _ => true | _ => false end.

(** ** Plain objects *)

(** The names that a plain object literal inherits from
    [Object.prototype]. *)
Definition Object_prototype_properties : list string :=
  [ "constructor"; "hasOwnProperty"; "isPrototypeOf"; "propertyIsEnumerable";
    "toLocaleString"; "toString"; "valueOf"; "__proto__";
    "__defineGetter__"; "__defineSetter__"; "__lookupGetter__";
    "__lookupSetter__" ].

Definition inherited (key : string) : bool :=
  existsb (String.eqb key) Object_prototype_properties.
Arguments inherited : simpl never.

(** What reading [object[key]] on a plain object gives: a property of its
    own, a member it inherits, or [undefined]. *)
Inductive Property (A : Type) :=
| own (a : A)
| inheritedMember
| undefined.
Arguments own {A} a.
Arguments inheritedMember {A}.
Arguments undefined {A}.

Definition getProperty {A} (object : gmap string A) (key : string) : Property A :=
  match object !! key with
  | Some a => own a
  | None => if inherited key then inheritedMember else undefined
  end.

(** [key in object] on a plain object. *)
Definition hasProperty {A} (object : gmap string A) (key : string) : bool :=
  match getProperty object key with
  | undefined => false
  | _ => true
  end.

(** ** Container and player primitives *)

(** [inventory.getItem(i)]. *)
Definition getItem (i : Z) : M (option ItemStack) :=
  gets (fun w => inventory w !! i).

(** [inventory.setItem(i, item)] and [containerSlot.setItem(item)]. *)
Definition setItem (i : Z) (item : ItemStack) : M unit :=
  perform (with_inventory (insert i item)) (SetItem i item).

(** [player.dimension.spawnItem(item, player.location)]. *)
Definition spawnItem (item : ItemStack) : M unit :=
  perform (fun w => w) (SpawnItem item).

Section Ui.
Context `{G : Game}.

Definition isUiItem (item : ItemStack) : bool := hasTag item UI_ITEM_TAG.

(** The [for] loop of [clearUiItemsFromPlayer] over the player's inventory
    slots [i, i+1, ...]; [rest] holds the slots not yet visited. *)
Fixpoint clearUiItems_loop (i : nat) (rest : list (option ItemStack))
    (anythingCleared : bool) : M bool :=
  match rest with
  | [] => ret anythingCleared
  | item :: rest' =>
      match item with
      | Some it =>
          if isUiItem it then
            perform (fun w => with_player (player_cursor w)
                                (<[i := None]> (player_inventory w)) w)
                    (ClearPlayerSlot i) ;;
            clearUiItems_loop (S i) rest' true
          else clearUiItems_loop (S i) rest' anythingCleared
      | None => clearUiItems_loop (S i) rest' anythingCleared
      end
  end.

Definition clearUiItemsFromPlayer : M bool :=
  cursorItem <- gets player_cursor ;;
  anythingCleared <-
    match cursorItem with
    | Some it =>
        if isUiItem it then
          perform (fun w => with_player None (player_inventory w) w) ClearCursor ;;
          ret true
        else ret false
    | None => ret false
    end ;;
  playerInventory <- gets player_inventory ;;
  clearUiItems_loop 0 playerInventory anythingCleared.

(** ** Storage bars *)

Definition fillDisabledUiBar (startIndex : Z) : M unit :=
  let itemStack :=
    set_nameTag "§rDisabled"
      (new_ItemStack "fluffyalien_energisticscore:ui_disabled_storage_bar_segment" 1) in
  setItem startIndex itemStack ;;
  setItem (startIndex + 1) itemStack ;;
  setItem (startIndex + 2) itemStack ;;
  setItem (startIndex + 3) itemStack.

(** [if (change)]: a number is falsy when it is zero or not a number. *)
Definition number_truthy (x : float) : bool :=
  negb (PrimFloat.is_zero x || PrimFloat.is_nan x).

Definition barLabel (labelColorCode name : string) (amount : Z) (change : float)
    : string :=
  let base :=
    "§r§" +:+ labelColorCode +:+ Z_toString amount +:+ "/"
      +:+ Z_toString MAX_MACHINE_STORAGE +:+ " " +:+ name in
  if number_truthy change then
    base +:+ " (" +:+ (if PrimFloat.ltb change 0 then "" else "+")
      +:+ truncateNumber change 2 +:+ "/t)"
  else base.

(** The segment item written for one slot of a bar. *)
Definition barSegmentItem (segmentItemBaseId labelColorCode name : string)
    (amount : Z) (change : float) (segments : Z) : ItemStack :=
  set_nameTag (barLabel labelColorCode name amount change)
    (new_ItemStack (segmentItemBaseId +:+ Z_toString segments) 1).

(** The loop of [fillUiBar], [for (i = startIndex + 3; i >= startIndex; i--)],
    with [n] iterations left: the next slot is [startIndex + n - 1]. *)
Fixpoint fillUiBar_loop (segmentItemBaseId labelColorCode name : string)
    (amount startIndex : Z) (change : float) (n : nat) (remainingSegments : Z)
    : M unit :=
  match n with
  | O => ret tt
  | S n' =>
      let i := startIndex + Z.of_nat n' in
      let segments := Z.min 16 remainingSegments in
      let remainingSegments := remainingSegments - segments in
      setItem i (barSegmentItem segmentItemBaseId labelColorCode name
                   amount change segments) ;;
      fillUiBar_loop segmentItemBaseId labelColorCode name
        amount startIndex change n' remainingSegments
  end.

Definition fillUiBar (segmentItemBaseId labelColorCode name : string)
    (amount startIndex : Z) (change : float) : M unit :=
  let remainingSegments := amount / STORAGE_AMOUNT_PER_BAR_SEGMENT in
  fillUiBar_loop segmentItemBaseId labelColorCode name
    amount startIndex change 4 remainingSegments.

(** The scan of [handleBarItems], [for (i = startIndex; i < startIndex + 4; i++)],
    with [n] iterations left.  A slot whose occupant carries the UI tag is
    skipped ([continue]); any other slot, empty or not, ends the scan
    ([break]) after the player was cleaned and the occupant, if there is
    one, was spawned at the player. *)
Fixpoint handleBarItems_scan (n : nat) (i : Z) : M unit :=
  match n with
  | O => ret tt
  | S n' =>
      inventoryItem <- getItem i ;;
      match inventoryItem with
      | Some it =>
          if hasTag it UI_ITEM_TAG then handleBarItems_scan n' (i + 1)
          else (clearUiItemsFromPlayer ;; spawnItem it)
      | None => (clearUiItemsFromPlayer ;; ret tt)
      end
  end.

(** Modelled from the spec: [getMachineStorage] of [./data], which is not
    among the sources ("getStorage(location, type) -> int"); as in the
    public API's function of the same name, a block without a score
    reads 0.  The caller has checked that the type is registered. *)
Definition getMachineStorage (loc : DimensionLocation) (type : string) : M Z :=
  gets (fun w => default 0 (machineStorage w !! (getBlockUniqueId loc, type))).

(** [type] and [change] are the optional parameters of the source; a call
    that leaves them out passes ["_disabled"] and [0]. *)
Definition handleBarItems (location : DimensionLocation) (startIndex : Z)
    (type : string) (change : float) : M unit :=
  handleBarItems_scan 4 startIndex ;;
  if String.eqb type "_disabled" then fillDisabledUiBar startIndex
  else
    registered <- gets (fun w => storageTypeRegistry w !! type) ;;
    match registered with
    | None => throw (UnknownStorageType type)
    | Some storageTypeOptions =>
        stored <- getMachineStorage location type ;;
        fillUiBar
          ("fluffyalien_energisticscore:ui_storage_bar_segment_"
             +:+ color_toString (color storageTypeOptions))
          (STORAGE_TYPE_COLOR_TO_FORMATTING_CODE (color storageTypeOptions))
          (name storageTypeOptions)
          stored startIndex change
    end.

(** ** Item slots *)

(** Modelled from the spec: [getMachineSlotItem] of [./data], which is not
    among the sources ("getSlotItem(location, logicalSlotId) ->
    {typeIndex, count}?"). *)
Definition getMachineSlotItem (loc : DimensionLocation) (slotId : Z)
    : M (option MachineItemStack) :=
  gets (fun w => slotItems w !! (getBlockUniqueId loc, slotId)).

Definition markChanged (uid : string) (slotId : Z)
    (m : gmap string (list Z)) : gmap string (list Z) :=
  match m !! uid with
  | Some l => <[uid := l ++ [slotId]]> m
  | None => <[uid := [slotId]]> m
  end.

(** Modelled from the spec: [setMachineSlotItem] of [./data], which is not
    among the sources ("setSlotItem(location, logicalSlotId, item?, notify:
    bool)").  The logical slot is replaced, or removed when no item is
    given; a notifying write also records the slot in the Dirty-Slot Set of
    the block, a silent one ([setChanged = false]) does not. *)
Definition setMachineSlotItem (loc : DimensionLocation) (slotId : Z)
    (newItemStack : option MachineItemStack) (setChanged : bool) : M unit :=
  let uid := getBlockUniqueId loc in
  perform
    (fun w =>
       with_slotItems
         (match newItemStack with
          | Some item => insert (uid, slotId) item
          | None => delete (uid, slotId)
          end)
         (if setChanged then with_changedSlots (markChanged uid slotId) w else w))
    (SetMachineSlot uid slotId newItemStack setChanged).

Definition UI_EMPTY_SLOT : string := "fluffyalien_energisticscore:ui_empty_slot".

(** [allowedItems[typeIndex]]: [undefined] outside the array. *)
Definition allowedItem (element : UiItemSlotElement) (typeIndex : Z)
    : option string :=
  if Z.ltb typeIndex 0 then None
  else allowedItems element !! Z.to_nat typeIndex.

(** Modelled from the spec: [machineItemStackToItemStack] of [./data], which
    is not among the sources ("the item representing the logical content
    (or an empty-state placeholder if the logical slot has no item)").  The
    kind of a machine item is the entry of [allowedItems] at its
    [typeIndex]; no item represents a machine item whose index lies outside
    the list, and the result is [None] there. *)
Definition machineItemStackToItemStack (element : UiItemSlotElement)
    (machineItem : option MachineItemStack) : option ItemStack :=
  match machineItem with
  | Some m =>
      match allowedItem element (typeIndex m) with
      | Some kind => Some (new_ItemStack kind (count m))
      | None => None
      end
  | None => Some (new_ItemStack UI_EMPTY_SLOT 1)
  end.

(** Building an item that does not exist throws. *)
Definition constructed (item : option ItemStack) : M ItemStack :=
  match item with
  | Some it => ret it
  | None => throw InvalidItemType
  end.

(** [array.indexOf(x)]: the first position of [x], or [-1]. *)
Fixpoint indexOf_from (i : Z) (x : string) (l : list string) : Z :=
  match l with
  | [] => -1
  | y :: l' => if String.eqb y x then i else indexOf_from (i + 1) x l'
  end.

Definition indexOf (x : string) (l : list string) : Z := indexOf_from 0 x l.

(** [changedSlots?.includes(slotId)]. *)
Definition includes_slot (changedSlots : option (list Z)) (slotId : Z) : bool :=
  match changedSlots with
  | Some l => bool_decide (slotId ∈ l)
  | None => false
  end.

(** [containerSlot] is a view of [inventory] at [element.index]; nothing
    between its creation and its last use writes to the inventory, so it is
    read once. *)
Definition handleItemSlot (loc : DimensionLocation)
    (element : UiItemSlotElement) (init : bool) : M unit :=
  expectedMachineItem <- getMachineSlotItem loc (slotId element) ;;
  expectedItemStack <-
    constructed (machineItemStackToItemStack element expectedMachineItem) ;;
  changedSlots <- gets (fun w => machineChangedItemSlots w !! getBlockUniqueId loc) ;;
  let slotChanged := includes_slot changedSlots (slotId element) in
  containerSlot <- getItem (index element) ;;
  if slotChanged || init then setItem (index element) expectedItemStack
  else
    match containerSlot with
    | None =>
        clearUiItemsFromPlayer ;;
        setMachineSlotItem loc (slotId element) None false ;;
        placeholder <- constructed (machineItemStackToItemStack element None) ;;
        setItem (index element) placeholder
    | Some item =>
        if isStackableWith item expectedItemStack then
          match expectedMachineItem with
          | Some m =>
              if negb (Z.eqb (amount item) (amount expectedItemStack)) then
                setMachineSlotItem loc (slotId element)
                  (Some {| typeIndex := typeIndex m; count := amount item |})
                  false
              else ret tt
          | None => ret tt
          end
        else
          clearUiItemsFromPlayer ;;
          let newTypeIndex := indexOf (typeId item) (allowedItems element) in
          if Z.eqb newTypeIndex (-1)
             || negb (isStackableWith item (new_ItemStack (typeId item) 1))
          then
            setMachineSlotItem loc (slotId element) None false ;;
            spawnItem item ;;
            placeholder <- constructed (machineItemStackToItemStack element None) ;;
            setItem (index element) placeholder
          else
            setMachineSlotItem loc (slotId element)
              (Some {| typeIndex := newTypeIndex; count := amount item |})
              false
    end.

(** ** Progress indicators *)

Definition Number_isInteger (v : Q) : bool :=
  Z.eqb (Qnum v mod Zpos (Qden v)) 0.

Definition Q_ltb (a b : Q) : bool := negb (Qle_bool b a).

(** [value.toString()], used on whole values only. *)
Definition Q_toString (v : Q) : string := Z_toString (Qfloor v).

(** The test of [handleProgressIndicator]:
    [value < 0 || value > maxValue || !Number.isInteger(value)]. *)
Definition progress_value_rejected (indicator : UiProgressIndicatorElementType)
    (value : Q) : bool :=
  let maxValue := PROGRESS_INDICATOR_MAX_VALUES indicator in
  Q_ltb value 0 || Q_ltb (inject_Z maxValue) value || negb (Number_isInteger value).

Definition handleProgressIndicator (index : Z)
    (indicator : UiProgressIndicatorElementType) (value : Q) : M unit :=
  if progress_value_rejected indicator value then
    throw (BadProgressValue indicator value)
  else
    inventoryItem <- getItem index ;;
    match inventoryItem with
    | Some it =>
        if hasTag it UI_ITEM_TAG then ret tt
        else (clearUiItemsFromPlayer ;; spawnItem it)
    | None => (clearUiItemsFromPlayer ;; ret tt)
    end ;;
    setItem index
      (new_ItemStack
         ("fluffyalien_energisticscore:ui_progress_"
            +:+ indicator_toString indicator +:+ Q_toString value) 1).

(** ** The reconciliation pass *)

(** One turn of the loop over [result.storageBars]: a directive for an
    element already [in] the object adds its [change] to what the object
    gives for that element, a new element stores the directive.  The source
    stores the directive object itself and updates it in place; the
    directives of a response are distinct objects and each is read once,
    before any update, so the entry is kept by value.  For an element that
    names an inherited member the [+=] lands on that member, which is no
    part of the object: nothing is stored for the element.  The inherited
    members are built-in objects of the script engine and no part of
    [World]: that one of them gains a [change] property is not recorded,
    and every read sees the built-ins as the engine starts with them. *)
Definition mergeStorageBar (storageBarChanges : gmap string UiStorageBarUpdateOptions)
    (changeOptions : UiStorageBarUpdateOptions) :=
  if hasProperty storageBarChanges (element changeOptions) then
    match getProperty storageBarChanges (element changeOptions) with
    | own prev =>
        <[element changeOptions :=
            {| element := element prev; type := type prev;
               change := PrimFloat.add (change prev) (change changeOptions) |}]>
          storageBarChanges
    | _ => storageBarChanges
    end
  else <[element changeOptions := changeOptions]> storageBarChanges.

Definition mergeStorageBars (storageBars : option (list UiStorageBarUpdateOptions))
    : gmap string UiStorageBarUpdateOptions :=
  match storageBars with
  | Some l => fold_left mergeStorageBar l ∅
  | None => ∅
  end.

(** The object spread [{...a, ...b}]: the keys of both, [b] winning. *)
Definition spread (a b : gmap string Q) : gmap string Q := b ∪ a.

Definition mergeProgressIndicators (fromResult : option (gmap string Q))
    : gmap string Q :=
  match fromResult with
  | Some p => spread ∅ p
  | None => ∅
  end.

(** The machine entity, as far as the pass reads it. *)
Record Entity := mkEntity {
  location_x : Q; location_y : Q; location_z : Q;
  entity_dimension : string;
}.

(** One turn of the loop over the elements.  [storageBarChanges[id]] and
    [progressIndicators[id]] are reads on plain objects.  An inherited
    member in place of a directive is truthy and has no [type], so the bar
    is drawn with the default type, which ignores the change; an inherited
    member in place of a progress value is not [undefined], so no default
    applies, and being no integer it is rejected by the first test of
    [handleProgressIndicator]. *)
Definition renderElement (dimensionLocation : DimensionLocation) (init : bool)
    (storageBarChanges : gmap string UiStorageBarUpdateOptions)
    (progressIndicators : gmap string Q)
    (id : string) (options : UiElement) : M unit :=
  match options with
  | storageBar startIndex =>
      match getProperty storageBarChanges id with
      | own changeOptions =>
          handleBarItems dimensionLocation startIndex
            (type changeOptions) (change changeOptions)
      | inheritedMember =>
          handleBarItems dimensionLocation startIndex "_disabled" 0
      | undefined => handleBarItems dimensionLocation startIndex "_disabled" 0
      end
  | itemSlot options => handleItemSlot dimensionLocation options init
  | progressIndicator indicator index =>
      match getProperty progressIndicators id with
      | own value => handleProgressIndicator index indicator value
      | inheritedMember => throw (BadProgressMember indicator id)
      | undefined => handleProgressIndicator index indicator 0%Q
      end
  end.

(** The loop over [Object.entries(definition.uiElements)]. *)
Fixpoint renderElements (dimensionLocation : DimensionLocation) (init : bool)
    (storageBarChanges : gmap string UiStorageBarUpdateOptions)
    (progressIndicators : gmap string Q)
    (elements : list (string * UiElement)) : M unit :=
  match elements with
  | [] => ret tt
  | (id, options) :: rest =>
      renderElement dimensionLocation init storageBarChanges
        progressIndicators id options ;;
      renderElements dimensionLocation init storageBarChanges
        progressIndicators rest
  end.

(** The block position of the entity, [Math.floor] on each axis. *)
Definition blockLocation (entity : Entity) : DimensionLocation :=
  {| loc_x := Qfloor (location_x entity);
     loc_y := Qfloor (location_y entity);
     loc_z := Qfloor (location_z entity);
     dimension := entity_dimension entity |}.

Definition falsy (s : option string) : bool :=
  match s with
  | None => true
  | Some s => String.eqb s ""
  end.

(** [updateEntityUi] from the point of view of the world in which the
    awaited handler call resumes: the two checks before the call read the
    definition only, [result] is the handler's response, and
    [entity_isValid] of the world is what [entity.isValid()] answers
    then. *)
Definition updateEntityUi (definition : InternalRegisteredMachine)
    (entity : Entity) (init : bool) (result : UpdateUiHandlerResponse) : M unit :=
  match uiElements definition with
  | None => throw (NoUiDefined (id definition))
  | Some elements =>
      if falsy (updateUiEvent definition) then
        throw (NoUpdateUiHandler (id definition))
      else
        let dimensionLocation := blockLocation entity in
        valid <- gets entity_isValid ;;
        if negb valid then ret tt
        else
          let storageBarChanges := mergeStorageBars (storageBars result) in
          let progressIndicators :=
            mergeProgressIndicators (progressIndicators result) in
          renderElements dimensionLocation init storageBarChanges
            progressIndicators elements ;;
          (fun w => (Ok tt, with_changedSlots (fun _ => ∅) w, []))
  end.

End Ui.

(** * Vocabulary of the properties

    Names for what a call leaves behind, used to state the theorems: the
    player after a cleaning, the logical slot of an element, the slot at
    which a bar scan stops, the segment counts of a fill. *)

Section Vocabulary.
Context `{G : Game}.

(** The four segment counts written by the fill, from slot [startIndex + 3]
    down to [startIndex]. *)
Definition seg3 (amount : Z) : Z := Z.min 16 (amount / 100).
Definition seg2 (amount : Z) : Z := Z.min 16 (amount / 100 - seg3 amount).
Definition seg1 (amount : Z) : Z :=
  Z.min 16 (amount / 100 - seg3 amount - seg2 amount).
Definition seg0 (amount : Z) : Z :=
  Z.min 16 (amount / 100 - seg3 amount - seg2 amount - seg1 amount).

(** What is left of a player slot after the cleaning: UI items go, anything
    else stays. *)
Definition keepForeign (o : option ItemStack) : option ItemStack :=
  match o with
  | Some it => if isUiItem it then None else Some it
  | None => None
  end.

Definition holdsUiItem (o : option ItemStack) : bool :=
  match o with
  | Some it => isUiItem it
  | None => false
  end.

Definition cleanedPlayer (w : World) : World :=
  with_player (keepForeign (player_cursor w))
    (keepForeign <$> player_inventory w) w.

Fixpoint clearSlotEffects (i : nat) (l : list (option ItemStack)) : list Effect :=
  match l with
  | [] => []
  | o :: l' =>
      (if holdsUiItem o then [ClearPlayerSlot i] else [])
        ++ clearSlotEffects (S i) l'
  end.

Definition clearEffects (w : World) : list Effect :=
  (if holdsUiItem (player_cursor w) then [ClearCursor] else [])
    ++ clearSlotEffects 0 (player_inventory w).

Definition anythingToClear (w : World) : bool :=
  holdsUiItem (player_cursor w) || existsb holdsUiItem (player_inventory w).

(** The Logical Item Slot of an element, as the ledger holds it. *)
Definition logicalSlot (loc : DimensionLocation) (element : UiItemSlotElement)
    (w : World) : option MachineItemStack :=
  slotItems w !! (getBlockUniqueId loc, slotId element).

(** The slot is in the Dirty-Slot Set of its block. *)
Definition slotChanged (loc : DimensionLocation) (element : UiItemSlotElement)
    (w : World) : bool :=
  includes_slot (machineChangedItemSlots w !! getBlockUniqueId loc) (slotId element).

Definition emptySlotItem : ItemStack := new_ItemStack UI_EMPTY_SLOT 1.

(** The silent ledger write of the renderer, as a world update. *)
Definition ledgerSet (loc : DimensionLocation) (element : UiItemSlotElement)
    (item : option MachineItemStack) (w : World) : World :=
  with_slotItems
    (match item with
     | Some m => insert (getBlockUniqueId loc, slotId element) m
     | None => delete (getBlockUniqueId loc, slotId element)
     end) w.

Definition silentWrite (loc : DimensionLocation) (element : UiItemSlotElement)
    (item : option MachineItemStack) : Effect :=
  SetMachineSlot (getBlockUniqueId loc) (slotId element) item false.

(** What the renderer needs of the game for its writes to settle: stacking
    does not look at the amount of the stack compared against, and the empty
    placeholder stacks with itself. *)
Definition stacking_ignores_amount : Prop :=
  forall (item : ItemStack) (kind : string) (n m : Z),
    isStackableWith item (new_ItemStack kind n)
    = isStackableWith item (new_ItemStack kind m).

Definition placeholder_stacks : Prop :=
  isStackableWith emptySlotItem emptySlotItem = true.

(** The occupant of slot [i] does not carry the UI tag; an empty slot has
    no tagged occupant either. *)
Definition lacksUiTag (inv : gmap Z ItemStack) (i : Z) : bool :=
  match inv !! i with
  | Some it => negb (hasTag it UI_ITEM_TAG)
  | None => true
  end.

(** The slot at which the ascending scan of a bar stops, if any. *)
Definition scanStop (startIndex : Z) (inv : gmap Z ItemStack) : option Z :=
  find (lacksUiTag inv)
    [startIndex; startIndex + 1; startIndex + 2; startIndex + 3].

(** The occupant found there, as a list of at most one item. *)
Definition foreignOccupant (startIndex : Z) (inv : gmap Z ItemStack)
    : list ItemStack :=
  match scanStop startIndex inv with
  | Some i => option_list (inv !! i)
  | None => []
  end.

Definition scanEffects (startIndex : Z) (w : World) : list Effect :=
  match scanStop startIndex (inventory w) with
  | Some i => clearEffects w ++ (SpawnItem <$> foreignOccupant startIndex (inventory w))
  | None => []
  end.

Definition scanWorld (startIndex : Z) (w : World) : World :=
  match scanStop startIndex (inventory w) with
  | Some i => cleanedPlayer w
  | None => w
  end.

Definition disabledBarItem : ItemStack :=
  set_nameTag "§rDisabled"
    (new_ItemStack "fluffyalien_energisticscore:ui_disabled_storage_bar_segment" 1).

(** The four writes of a fill, as the renderer performs them for a bar of
    storage type [type]; [None] when the type is not registered. *)
Definition fillOf (location : DimensionLocation) (startIndex : Z)
    (type : string) (change : float) (w : World) : option (M unit) :=
  if String.eqb type "_disabled" then Some (fillDisabledUiBar startIndex)
  else
    match storageTypeRegistry w !! type with
    | Some o =>
        Some (fillUiBar
                ("fluffyalien_energisticscore:ui_storage_bar_segment_"
                   +:+ color_toString (color o))
                (STORAGE_TYPE_COLOR_TO_FORMATTING_CODE (color o)) (name o)
                (default 0 (machineStorage w !! (getBlockUniqueId location, type)))
                startIndex change)
    | None => None
    end.

(** The items a fill writes: the "Disabled" placeholder or a segment item. *)
Definition isBarItem (change : float) (bar : ItemStack) : Prop :=
  bar = disabledBarItem
  \/ exists base code nm amount segments,
       bar = barSegmentItem base code nm amount change segments.

(** The sum of a first number and the numbers after it, added one by one
    in their order with the machine's addition. *)
Definition sumFrom (first : float) (rest : list float) : float :=
  fold_left PrimFloat.add rest first.

Definition directivesFor (id : string) (l : list UiStorageBarUpdateOptions)
    : list UiStorageBarUpdateOptions :=
  filter (fun d => element d = id) l.

End Vocabulary.

(** ** A concrete game, for running the model *)

Definition UI_ITEM_PREFIX : string := "fluffyalien_energisticscore:ui_".

(** The whole part of a finite number in decimal, enough for the sample
    game's [truncateNumber]. *)
Definition float_toString_whole (x : float) : string :=
  match Prim2SF x with
  | S754_zero _ => "0"
  | S754_finite negative m e =>
      let magnitude :=
        if Z.leb 0 e then Z.shiftl (Zpos m) e else Z.shiftr (Zpos m) (- e) in
      Z_toString (if negative then - magnitude else magnitude)
  | S754_infinity negative => if negative then "-Infinity" else "Infinity"
  | S754_nan => "NaN"
  end.

(** Items of the add-on's UI catalog carry the UI tag; two stacks stack when
    they agree on everything but the amount. *)
Definition plainGame : Game := {|
  hasTag it tag :=
    String.eqb tag UI_ITEM_TAG && String.prefix UI_ITEM_PREFIX (typeId it);
  isStackableWith a b :=
    String.eqb (typeId a) (typeId b)
    && bool_decide (nameTag a = nameTag b)
    && bool_decide (props a = props b);
  getBlockUniqueId loc :=
    Z_toString (loc_x loc) +:+ "," +:+ Z_toString (loc_y loc) +:+ ","
      +:+ Z_toString (loc_z loc) +:+ "," +:+ dimension loc;
  truncateNumber x _ := float_toString_whole x;
|}.

Definition emptyWorld : World :=
  {| entity_isValid := true;
     inventory := ∅;
     player_cursor := None;
     player_inventory := [];
     slotItems := ∅;
     machineStorage := ∅;
     storageTypeRegistry := ∅;
     machineChangedItemSlots := ∅ |}.

Module Sample.

Definition loc : DimensionLocation :=
  {| loc_x := 0; loc_y := 64; loc_z := 0; dimension := "overworld" |}.

Definition uid : string := "0,64,0,overworld".

Definition fuelSlot : UiItemSlotElement :=
  {| index := 4; slotId := 0;
     allowedItems := ["minecraft:coal"; "minecraft:charcoal"] |}.

Definition dirt : ItemStack := new_ItemStack "minecraft:dirt" 64.
Definition coal5 : ItemStack := new_ItemStack "minecraft:coal" 5.
Definition arrow3 : ItemStack :=
  new_ItemStack "fluffyalien_energisticscore:ui_progress_arrow3" 1.

(** The ledger holds three charcoal for the fuel slot, the slot is marked
    changed, and the rendered slot was covered with dirt. *)
Definition dirtyWorld : World :=
  {| entity_isValid := true;
     inventory := {[ 4 := dirt ]};
     player_cursor := Some arrow3;
     player_inventory := [Some dirt; Some arrow3];
     slotItems := {[ (uid, 0) := {| typeIndex := 1; count := 3 |} ]};
     machineStorage := ∅;
     storageTypeRegistry := ∅;
     machineChangedItemSlots := {[ uid := [0]; "9,9,9,nether" := [2; 3] ]} |}.

(** Nothing is marked changed; the player put five coal into the slot. *)
Definition coalWorld : World :=
  {| entity_isValid := true;
     inventory := {[ 4 := coal5 ]};
     player_cursor := None;
     player_inventory := [Some arrow3; None];
     slotItems := ∅;
     machineStorage := ∅;
     storageTypeRegistry := ∅;
     machineChangedItemSlots := ∅ |}.

(** Nothing is marked changed; the player took the item out of the slot. *)
Definition takenWorld : World :=
  {| entity_isValid := true;
     inventory := ∅;
     player_cursor := Some arrow3;
     player_inventory := [];
     slotItems := {[ (uid, 0) := {| typeIndex := 0; count := 7 |} ]};
     machineStorage := ∅;
     storageTypeRegistry := ∅;
     machineChangedItemSlots := ∅ |}.

Definition goneWorld : World :=
  {| entity_isValid := false;
     inventory := {[ 4 := dirt ]};
     player_cursor := None;
     player_inventory := [];
     slotItems := ∅;
     machineStorage := ∅;
     storageTypeRegistry := ∅;
     machineChangedItemSlots := {[ uid := [0] ]} |}.

Definition entity : Entity :=
  {| location_x := 1 # 2; location_y := 64; location_z := 1 # 2;
     entity_dimension := "overworld" |}.

Definition furnace : InternalRegisteredMachine :=
  {| id := "example:furnace"; persistentEntity := false;
     uiElements :=
       Some [ ("fuel", itemSlot fuelSlot);
              ("progress", progressIndicator arrow 5);
              ("energy", storageBar 0) ];
     updateUiEvent := Some "example:furnace__updateUiHandler" |}.

(** An energy bar at slots 0..3 whose slots 1 and 2 were covered with
    foreign items; the block stores 250 units of energy. *)
Definition coveredBarWorld : World :=
  {| entity_isValid := true;
     inventory := {[ 0 := arrow3; 1 := dirt; 2 := coal5 ]};
     player_cursor := None;
     player_inventory := [];
     slotItems := ∅;
     machineStorage := {[ (uid, "energy") := 250 ]};
     storageTypeRegistry :=
       {[ "energy" := {| st_id := "energy"; category := "energy";
                         color := red; name := "Energy" |} ]};
     machineChangedItemSlots := ∅ |}.

Definition generator : InternalRegisteredMachine :=
  {| id := "example:generator"; persistentEntity := false;
     uiElements := Some [ ("energy", storageBar 0) ];
     updateUiEvent := Some "example:generator__updateUiHandler" |}.

Definition twoDirectives : UpdateUiHandlerResponse :=
  {| storageBars :=
       Some [ {| element := "energy"; type := "energy"; change := 5 |};
              {| element := "energy"; type := "energy"; change := -2 |} ];
     progressIndicators := None |}.

Definition noResponse : UpdateUiHandlerResponse :=
  {| storageBars := None; progressIndicators := None |}.

Definition badResponse : UpdateUiHandlerResponse :=
  {| storageBars := None;
     progressIndicators := Some {[ "progress" := 17%Q ]} |}.

End Sample.

(** * The rest of [ui.ts]: sessions and event handlers *)

(** A machine entity as the session map sees it: [entity_key] is the
    identity of the object (the key of the JavaScript [Map]). *)
Record MachineEntity := mkMachineEntity {
  entity_key : nat;
  entity_typeId : string;
  entity_body : Entity;
}.

Definition Player : Type := nat.

(** What the handlers ask the game and the registry when they run. *)
Record Server := mkServer {
  server_isValid : MachineEntity -> bool;
  server_isMachineEntity : MachineEntity -> bool;
  server_playersNear : MachineEntity -> list Player;
  machineEntityToBlockIdMap : gmap string string;
  machineRegistry : gmap string InternalRegisteredMachine;
}.

(** A call [void updateEntityUi(definition, entity, player, init)]: the
    pass is started and not awaited.  [machineRegistry[...]] may be
    [undefined]; the pass started with it rejects on its own. *)
Record Pass := mkPass {
  pass_definition : option InternalRegisteredMachine;
  pass_entity : MachineEntity;
  pass_player : Player;
  pass_init : bool;
}.

Inductive HandlerError :=
| NotAttachedToMachine (typeId : string)
| DefinitionUndefined (typeId : string).

(** [playersInUi], a [Map] in insertion order. *)
Definition SessionMap : Type := list (MachineEntity * Player).

(** [map.set(key, value)]: an existing key keeps its place. *)
Fixpoint Map_set (entity : MachineEntity) (player : Player) (m : SessionMap)
    : SessionMap :=
  match m with
  | [] => [(entity, player)]
  | (e, p) :: m' =>
      if Nat.eqb (entity_key e) (entity_key entity) then (e, player) :: m'
      else (e, p) :: Map_set entity player m'
  end.

(** [map.delete(key)]. *)
Fixpoint Map_delete (entity : MachineEntity) (m : SessionMap) : SessionMap :=
  match m with
  | [] => []
  | (e, p) :: m' =>
      if Nat.eqb (entity_key e) (entity_key entity) then Map_delete entity m'
      else (e, p) :: Map_delete entity m'
  end.

(** [map.get(key)]. *)
Fixpoint Map_get (entity : MachineEntity) (m : SessionMap) : option Player :=
  match m with
  | [] => None
  | (e, p) :: m' =>
      if Nat.eqb (entity_key e) (entity_key entity) then Some p
      else Map_get entity m'
  end.

(** The handler of [world.afterEvents.playerInteractWithEntity]: the error
    it throws if any, the session map it leaves, the passes it starts. *)
Definition onPlayerInteractWithEntity (sv : Server) (target : MachineEntity)
    (player : Player) (playersInUi : SessionMap)
    : option HandlerError * SessionMap * list Pass :=
  if negb (server_isMachineEntity sv target) then (None, playersInUi, [])
  else
    let machineId := machineEntityToBlockIdMap sv !! entity_typeId target in
    if falsy machineId then
      (Some (NotAttachedToMachine (entity_typeId target)), playersInUi, [])
    else
      let playersInUi := Map_set target player playersInUi in
      let definition := machineId ≫= fun i => machineRegistry sv !! i in
      (None, playersInUi,
       [ {| pass_definition := definition; pass_entity := target;
            pass_player := player; pass_init := true |} ]).

(** The loop of the [system.runInterval] callback over the entries of
    [playersInUi]; [pending] holds the entries not yet visited.  Reading
    [persistentEntity] of an undefined definition throws and ends the
    callback. *)
Fixpoint runInterval_loop (sv : Server) (pending playersInUi : SessionMap)
    : option HandlerError * SessionMap * list Pass :=
  match pending with
  | [] => (None, playersInUi, [])
  | (entity, player) :: rest =>
      if negb (server_isValid sv entity) then
        runInterval_loop sv rest (Map_delete entity playersInUi)
      else
        match machineRegistry sv !! entity_typeId entity with
        | None => (Some (DefinitionUndefined (entity_typeId entity)), playersInUi, [])
        | Some definition =>
            if persistentEntity definition
               && Nat.eqb (length (server_playersNear sv entity)) 0
            then runInterval_loop sv rest (Map_delete entity playersInUi)
            else
              match runInterval_loop sv rest playersInUi with
              | (r, m, passes) =>
                  (r, m,
                   {| pass_definition := Some definition; pass_entity := entity;
                      pass_player := player; pass_init := false |} :: passes)
              end
        end
  end.

Definition runInterval (sv : Server) (playersInUi : SessionMap)
    : option HandlerError * SessionMap * list Pass :=
  runInterval_loop sv playersInUi playersInUi.

(** An entity that appeared in the world, for the [entitySpawn] handler:
    its type and, for a dropped item, the stack it carries. *)
Record SpawnedEntity := mkSpawned {
  spawned_typeId : string;
  spawned_itemStack : option ItemStack;
}.

Section Handlers.
Context `{G : Game}.

(** The handler of [world.afterEvents.entitySpawn]: [true] when it removes
    the entity. *)
Definition onEntitySpawn (e : SpawnedEntity) : bool :=
  if negb (String.eqb (spawned_typeId e) "minecraft:item") then false
  else
    match spawned_itemStack e with
    | Some itemStack => isUiItem itemStack
    | None => false
    end.

(** The entity that [spawnItem] creates for a stack. *)
Definition itemEntity (item : ItemStack) : SpawnedEntity :=
  {| spawned_typeId := "minecraft:item"; spawned_itemStack := Some item |}.

End Handlers.

(** The sessions of a map have pairwise different entities. *)
Definition distinctKeys (m : SessionMap) : Prop :=
  NoDup (map (fun s => entity_key (fst s)) m).

(** The sessions a tick keeps: the entity is valid and, for a machine with
    a persistent entity, some player is near. *)
Definition keptByTick (sv : Server) (s : MachineEntity * Player) : bool :=
  server_isValid sv (fst s)
  && match machineRegistry sv !! entity_typeId (fst s) with
     | Some definition =>
         negb (persistentEntity definition
               && Nat.eqb (length (server_playersNear sv (fst s))) 0)
     | None => true
     end.

(** Every valid entity of the map has a definition in the registry. *)
Definition allDefined (sv : Server) (m : SessionMap) : Prop :=
  forall s, s ∈ m -> server_isValid sv (fst s) = true ->
    is_Some (machineRegistry sv !! entity_typeId (fst s)).

Definition passOfSession (sv : Server) (s : MachineEntity * Player) : Pass :=
  {| pass_definition := machineRegistry sv !! entity_typeId (fst s);
     pass_entity := fst s; pass_player := snd s; pass_init := false |}.

(** * The public API ([public_api/src/index.ts]) *)

Module PublicApi.

Record InitOptions := mkInitOptions { namespace : string }.

Record UiOptions := mkUiOptions { elements : list (string * UiElement) }.

Record Description := mkDescription {
  description_id : string;
  description_persistentEntity : option bool;
  ui : option UiOptions;
}.

Record Handlers := mkHandlers {
  updateUi : option (DimensionLocation -> UpdateUiHandlerResponse);
}.

Record MachineDefinition := mkMachineDefinition {
  description : Description;
  handlers : option Handlers;
}.

Record RegisteredMachine := mkRegisteredMachine {
  registered_description : Description;
  registered_updateUiEvent : option string;
}.

(** The script events the API dispatches, by event id. *)
Inductive ScriptEvent :=
| ipc_register_machine (payload : RegisteredMachine)
| ipc_register_storage_type (payload : StorageTypeDefinition)
| ipc_update_block_networks (loc : DimensionLocation)
| ipc_update_block_connectable_networks (loc : DimensionLocation)
| ipc_update_block_adjacent_networks (loc : DimensionLocation)
| ipc_set_item_in_machine_slot (loc : DimensionLocation) (slot : Z)
    (item : option MachineItemStack)
| ipc_queue_send (loc : DimensionLocation) (type : string) (amount : Z).

Inductive ApiError :=
| AlreadyInitialized
| NotInitialized
| GetUnknownStorageType (type : string)
| SetBelowMinimum (type : string) (value : Z)
| SetAboveMaximum (type : string) (value : Z)
| SetUnknownStorageType (type : string).

(** The module variable [initOptions], the scoreboard the API reads and
    writes, and what it sent out.  The helpers of [./internal] and
    [./addon_ipc] are not among the sources and are read as operations on
    this state: [getStorageScoreboardObjective(type)] is the lookup in
    [storageObjectives], an objective mapping participants to scores;
    [getScore] on the item objectives of a slot, which always exist, is the
    lookup in [itemTypeScores] and [itemCountScores]; [dispatchScriptEvent]
    and [registerScriptEventHandler] append to [dispatched] and
    [registeredHandlers]. *)
Record ApiState := mkApiState {
  initOptions : option InitOptions;
  storageObjectives : gmap string (gmap string Z);
  itemTypeScores : gmap (Z * string) Z;
  itemCountScores : gmap (Z * string) Z;
  dispatched : list ScriptEvent;
  registeredHandlers :
    list (string * (DimensionLocation -> UpdateUiHandlerResponse));
}.

Inductive ApiOutcome (A : Type) :=
| Returns (a : A)
| Throws (e : ApiError).
Arguments Returns {A} a.
Arguments Throws {A} e.

Definition with_initOptions (o : option InitOptions) (s : ApiState) : ApiState :=
  {| initOptions := o;
     storageObjectives := storageObjectives s;
     itemTypeScores := itemTypeScores s;
     itemCountScores := itemCountScores s;
     dispatched := dispatched s;
     registeredHandlers := registeredHandlers s |}.

Definition with_storageObjectives (o : gmap string (gmap string Z))
    (s : ApiState) : ApiState :=
  {| initOptions := initOptions s;
     storageObjectives := o;
     itemTypeScores := itemTypeScores s;
     itemCountScores := itemCountScores s;
     dispatched := dispatched s;
     registeredHandlers := registeredHandlers s |}.

(** [dispatchScriptEvent(id, payload)]. *)
Definition dispatchScriptEvent (e : ScriptEvent) (s : ApiState) : ApiState :=
  {| initOptions := initOptions s;
     storageObjectives := storageObjectives s;
     itemTypeScores := itemTypeScores s;
     itemCountScores := itemCountScores s;
     dispatched := dispatched s ++ [e];
     registeredHandlers := registeredHandlers s |}.

(** [registerScriptEventHandler(id, callback)]. *)
Definition registerScriptEventHandler (event : string)
    (callback : DimensionLocation -> UpdateUiHandlerResponse)
    (s : ApiState) : ApiState :=
  {| initOptions := initOptions s;
     storageObjectives := storageObjectives s;
     itemTypeScores := itemTypeScores s;
     itemCountScores := itemCountScores s;
     dispatched := dispatched s;
     registeredHandlers := registeredHandlers s ++ [(event, callback)] |}.

Definition init (options : InitOptions) (s : ApiState)
    : ApiOutcome unit * ApiState :=
  match initOptions s with
  | Some _ => (Throws AlreadyInitialized, s)
  | None => (Returns tt, with_initOptions (Some options) s)
  end.

Definition ensureInitialized (s : ApiState) : ApiOutcome unit :=
  match initOptions s with
  | Some _ => Returns tt
  | None => Throws NotInitialized
  end.

Definition registerMachine (options : MachineDefinition) (s : ApiState)
    : ApiOutcome unit * ApiState :=
  match ensureInitialized s with
  | Throws e => (Throws e, s)
  | Returns _ =>
      let updateUiEvent_s :=
        match handlers options ≫= updateUi with
        | Some handler =>
            let updateUiEvent :=
              description_id (description options) +:+ "__updateUiHandler" in
            (Some updateUiEvent, registerScriptEventHandler updateUiEvent handler s)
        | None => (None, s)
        end in
      let payload :=
        {| registered_description := description options;
           registered_updateUiEvent := fst updateUiEvent_s |} in
      (Returns tt, dispatchScriptEvent (ipc_register_machine payload) (snd updateUiEvent_s))
  end.

Definition registerStorageType (definition : StorageTypeDefinition) (s : ApiState)
    : ApiOutcome unit * ApiState :=
  match ensureInitialized s with
  | Throws e => (Throws e, s)
  | Returns _ =>
      let payload :=
        {| st_id := st_id definition; category := category definition;
           color := color definition; name := name definition |} in
      (Returns tt, dispatchScriptEvent (ipc_register_storage_type payload) s)
  end.

Section Ledger.
Context `{G : Game}.

(** [getScore(objective, participant)]: the score, or [undefined]. *)
Definition getScore (objective : gmap string Z) (participant : string)
    : option Z :=
  objective !! participant.

Definition getMachineStorage (loc : DimensionLocation) (type : string)
    (s : ApiState) : ApiOutcome Z :=
  match storageObjectives s !! type with
  | None => Throws (GetUnknownStorageType type)
  | Some objective => Returns (default 0 (getScore objective (getBlockUniqueId loc)))
  end.

Definition setMachineStorage (loc : DimensionLocation) (type : string)
    (value : Z) (s : ApiState) : ApiOutcome unit * ApiState :=
  if Z.ltb value 0 then (Throws (SetBelowMinimum type value), s)
  else if Z.ltb MAX_MACHINE_STORAGE value then
    (Throws (SetAboveMaximum type value), s)
  else
    match storageObjectives s !! type with
    | None => (Throws (SetUnknownStorageType type), s)
    | Some objective =>
        (Returns tt,
         with_storageObjectives
           (<[type := <[getBlockUniqueId loc := value]> objective]>
              (storageObjectives s)) s)
    end.

Definition getItemInMachineSlot (loc : DimensionLocation) (slotId : Z)
    (s : ApiState) : option MachineItemStack :=
  let participantId := getBlockUniqueId loc in
  match itemTypeScores s !! (slotId, participantId) with
  | None => None
  | Some itemType =>
      match itemCountScores s !! (slotId, participantId) with
      | None => None
      | Some itemCount =>
          if Z.eqb itemCount 0 then None
          else Some {| typeIndex := itemType; count := itemCount |}
      end
  end.

Definition setItemInMachineSlot (loc : DimensionLocation) (slotId : Z)
    (newItemStack : option MachineItemStack) (s : ApiState) : ApiState :=
  dispatchScriptEvent (ipc_set_item_in_machine_slot loc slotId newItemStack) s.

Definition queueSend (blockLocation : DimensionLocation) (type : string)
    (amount : Z) (s : ApiState) : ApiState :=
  dispatchScriptEvent (ipc_queue_send blockLocation type amount) s.

Definition generate (blockLocation : DimensionLocation) (type : string)
    (amount : Z) (s : ApiState) : ApiOutcome unit * ApiState :=
  match getMachineStorage blockLocation type s with
  | Throws e => (Throws e, s)
  | Returns stored =>
      let sendAmount := stored + amount in
      if Z.leb sendAmount 0 then (Returns tt, s)
      else (Returns tt, queueSend blockLocation type sendAmount s)
  end.

(** Every score of every storage objective lies between 0 and
    [MAX_MACHINE_STORAGE]. *)
Definition storageWithinBounds (s : ApiState) : Prop :=
  forall type objective participant v,
    storageObjectives s !! type = Some objective ->
    objective !! participant = Some v ->
    0 <= v <= MAX_MACHINE_STORAGE.

End Ledger.

Definition freshState : ApiState :=
  {| initOptions := None;
     storageObjectives := {[ "energy" := ∅ ]};
     itemTypeScores := ∅;
     itemCountScores := ∅;
     dispatched := [];
     registeredHandlers := [] |}.

End PublicApi.

(** * Vocabulary for the frame of a call *)

(** What no renderer touches: the stored amounts, the storage type
    registry, the validity of the entity and the Dirty-Slot Set. *)
Definition bookkeepingKept (w w' : World) : Prop :=
  machineStorage w' = machineStorage w
  /\ storageTypeRegistry w' = storageTypeRegistry w
  /\ entity_isValid w' = entity_isValid w
  /\ machineChangedItemSlots w' = machineChangedItemSlots w.

(** The container agrees with the one before outside the slots [lo..hi]. *)
Definition containerKeptOutside (lo hi : Z) (w w' : World) : Prop :=
  forall i, i < lo \/ hi < i -> inventory w' !! i = inventory w !! i.

Definition PROGRESS_ITEM_PREFIX : string :=
  "fluffyalien_energisticscore:ui_progress_".

Definition SEGMENT_ITEM_PREFIX : string :=
  "fluffyalien_energisticscore:ui_storage_bar_segment_".

(** The item a progress indicator shows for the whole value [n]. *)
Definition progressItem (indicator : UiProgressIndicatorElementType) (n : Z)
    : ItemStack :=
  new_ItemStack (PROGRESS_ITEM_PREFIX +:+ indicator_toString indicator +:+ Z_toString n) 1.

(** The identities of the entities of a session map, in order. *)
Definition sessionKeys (m : SessionMap) : list nat :=
  map (fun s => entity_key (fst s)) m.

(** Further sample data. *)
Module Demo.

(** The ledger holds three coal for the fuel slot; the player topped the
    rendered stack up to five. *)
Definition stackedWorld : World :=
  {| entity_isValid := true;
     inventory := {[ 4 := Sample.coal5 ]};
     player_cursor := None;
     player_inventory := [];
     slotItems := {[ (Sample.uid, 0) := {| typeIndex := 0; count := 3 |} ]};
     machineStorage := ∅;
     storageTypeRegistry := ∅;
     machineChangedItemSlots := ∅ |}.


Definition furnaceEntity : MachineEntity :=
  {| entity_key := 1; entity_typeId := "example:furnace";
     entity_body := Sample.entity |}.

Definition staleEntity : MachineEntity :=
  {| entity_key := 2; entity_typeId := "example:furnace";
     entity_body := Sample.entity |}.

Definition strayEntity : MachineEntity :=
  {| entity_key := 3; entity_typeId := "example:unknown";
     entity_body := Sample.entity |}.

(** Entity 2 is gone; one player stands near every entity. *)
Definition server : Server :=
  {| server_isValid e := negb (Nat.eqb (entity_key e) 2);
     server_isMachineEntity _ := true;
     server_playersNear _ := [10%nat];
     machineEntityToBlockIdMap := {[ "example:furnace" := "example:furnace" ]};
     machineRegistry := {[ "example:furnace" := Sample.furnace ]} |}.

Definition sessions : SessionMap :=
  [ (furnaceEntity, 10%nat); (staleEntity, 11%nat) ].



(** Three changes for one bar, two tenths, six tenths and minus eight
    tenths, in two orders. *)
Definition tenths (n : float) : float := PrimFloat.div n 10.

Definition roundedDirectives : list UiStorageBarUpdateOptions :=
  [ {| element := "energy"; type := "energy"; change := tenths 2 |};
    {| element := "energy"; type := "energy"; change := tenths 6 |};
    {| element := "energy"; type := "energy"; change := tenths (-8) |} ].

Definition reorderedDirectives : list UiStorageBarUpdateOptions :=
  [ {| element := "energy"; type := "energy"; change := tenths 2 |};
    {| element := "energy"; type := "energy"; change := tenths (-8) |};
    {| element := "energy"; type := "energy"; change := tenths 6 |} ].

(** A generator whose energy bar was given the id [valueOf], and a response
    with two directives for it. *)
Definition valueOfGenerator : InternalRegisteredMachine :=
  {| id := "example:generator"; persistentEntity := false;
     uiElements := Some [ ("valueOf", storageBar 0) ];
     updateUiEvent := Some "example:generator__updateUiHandler" |}.

Definition valueOfResponse : UpdateUiHandlerResponse :=
  {| storageBars :=
       Some [ {| element := "valueOf"; type := "energy"; change := 5 |};
              {| element := "valueOf"; type := "energy"; change := -2 |} ];
     progressIndicators := None |}.

(** A machine with an energy bar and a flame, and one whose only element
    is an arrow with the id [constructor]. *)
Definition gauge : InternalRegisteredMachine :=
  {| id := "example:gauge"; persistentEntity := false;
     uiElements :=
       Some [ ("energy", storageBar 0); ("burning", progressIndicator flame 5) ];
     updateUiEvent := Some "example:gauge__updateUiHandler" |}.

Definition constructorGauge : InternalRegisteredMachine :=
  {| id := "example:gauge"; persistentEntity := false;
     uiElements := Some [ ("constructor", progressIndicator arrow 5) ];
     updateUiEvent := Some "example:gauge__updateUiHandler" |}.

End Demo.

(** * Properties *)

(** ** Running computations *)

Lemma outcome_of_run {A} (r : Outcome A) w e : outcome_of (r, w, e) = r.
Proof. reflexivity. Qed.

Lemma world_of_run {A} (r : Outcome A) w e : world_of (r, w, e) = w.
Proof. reflexivity. Qed.

Lemma effects_of_run {A} (r : Outcome A) w e : effects_of (r, w, e) = e.
Proof. reflexivity. Qed.

(** ** The storage-bar fill *)

Section FillFacts.
Context `{G : Game}.

Example fillUiBar_250 :
  effects_of (fillUiBar "seg" "4" "Energy" 250 10 0 emptyWorld)
  = [ SetItem 13 (barSegmentItem "seg" "4" "Energy" 250 0 2);
      SetItem 12 (barSegmentItem "seg" "4" "Energy" 250 0 0);
      SetItem 11 (barSegmentItem "seg" "4" "Energy" 250 0 0);
      SetItem 10 (barSegmentItem "seg" "4" "Energy" 250 0 0) ].
Proof. reflexivity. Qed.

Lemma fillUiBar_run base code nm a s ch w :
  fillUiBar base code nm a s ch w =
  (Ok tt,
   with_inventory
     (fun inv =>
        <[s := barSegmentItem base code nm a ch (seg0 a)]>
          (<[s + 1 := barSegmentItem base code nm a ch (seg1 a)]>
             (<[s + 2 := barSegmentItem base code nm a ch (seg2 a)]>
                (<[s + 3 := barSegmentItem base code nm a ch (seg3 a)]> inv)))) w,
   [ SetItem (s + 3) (barSegmentItem base code nm a ch (seg3 a));
     SetItem (s + 2) (barSegmentItem base code nm a ch (seg2 a));
     SetItem (s + 1) (barSegmentItem base code nm a ch (seg1 a));
     SetItem s (barSegmentItem base code nm a ch (seg0 a)) ]).
Proof.
  unfold fillUiBar, STORAGE_AMOUNT_PER_BAR_SEGMENT.
  cbn [fillUiBar_loop]. unfold bind, setItem, perform, ret.
  change (Z.of_nat 3) with 3. change (Z.of_nat 2) with 2.
  change (Z.of_nat 1) with 1. change (Z.of_nat 0) with 0.
  rewrite Z.add_0_r. reflexivity.
Qed.

Lemma to_int_proper x :
  Z.to_int x <> Decimal.Pos Decimal.Nil /\ Z.to_int x <> Decimal.Neg Decimal.Nil.
Proof.
  destruct x as [|p|p]; cbn; split; try discriminate.
  - intros [= H]. revert H. apply DecimalPos.Unsigned.to_uint_nonnil.
  - intros [= H]. revert H. apply DecimalPos.Unsigned.to_uint_nonnil.
Qed.

(** Different whole numbers print differently. *)
Lemma Z_toString_inj m n : Z_toString m = Z_toString n -> m = n.
Proof.
  unfold Z_toString. intros H. apply DecimalZ.to_int_inj.
  assert (Hs : Some (Z.to_int m) = Some (Z.to_int n)).
  { rewrite <- (NilZero.isi (Z.to_int m)), <- (NilZero.isi (Z.to_int n))
      by apply to_int_proper.
    rewrite H. reflexivity. }
  congruence.
Qed.

Lemma append_inj_r (a x y : string) : a +:+ x = a +:+ y -> x = y.
Proof. induction a as [|c a IH]; cbn; [auto|]. intros [= H]. auto. Qed.

Lemma segment_id_inj base m n :
  base +:+ Z_toString m = base +:+ Z_toString n -> m = n.
Proof. intros H. apply Z_toString_inj. eapply append_inj_r. exact H. Qed.

Lemma segments_sum a :
  0 <= a <= 6400 ->
  seg0 a + seg1 a + seg2 a + seg3 a = a / 100
  /\ 0 <= seg0 a /\ seg0 a <= seg1 a /\ seg1 a <= seg2 a
  /\ seg2 a <= seg3 a /\ seg3 a <= 16.
Proof.
  intros Ha.
  assert (0 <= a / 100 <= 64) as Hq.
  { split; [apply Z.div_pos; lia | apply Z.div_le_upper_bound; lia]. }
  unfold seg0, seg1, seg2, seg3. lia.
Qed.

(** C1. For a stored amount [0 <= a <= 6400] and any start index [s], the
    fill writes the four slots [s+3], [s+2], [s+1], [s] in that order, each
    with the segment item of a count between 0 and 16; the counts add up to
    [floor(a / 100)] and do not increase from slot [s+3] down to slot [s].
    The count of a slot is what the written item shows: the item is a
    single clean stack, labelled, whose identifier is the base identifier
    followed by the count in decimal, and different counts give different
    identifiers. *)
Theorem fillUiBar_segments base code nm (a s : Z) (ch : float) (w : World) :
  0 <= a <= 6400 ->
  exists n0 n1 n2 n3 : Z,
    let r := fillUiBar base code nm a s ch w in
    let shows (n : Z) : ItemStack :=
      {| typeId := base +:+ Z_toString n; amount := 1;
         nameTag := Some (barLabel code nm a ch); props := [] |} in
    outcome_of r = Ok tt
    /\ effects_of r =
       [ SetItem (s + 3) (barSegmentItem base code nm a ch n3);
         SetItem (s + 2) (barSegmentItem base code nm a ch n2);
         SetItem (s + 1) (barSegmentItem base code nm a ch n1);
         SetItem s (barSegmentItem base code nm a ch n0) ]
    /\ inventory (world_of r) !! (s + 3) = Some (barSegmentItem base code nm a ch n3)
    /\ inventory (world_of r) !! (s + 2) = Some (barSegmentItem base code nm a ch n2)
    /\ inventory (world_of r) !! (s + 1) = Some (barSegmentItem base code nm a ch n1)
    /\ inventory (world_of r) !! s = Some (barSegmentItem base code nm a ch n0)
    /\ n0 + n1 + n2 + n3 = a / 100
    /\ n3 >= n2 /\ n2 >= n1 /\ n1 >= n0 /\ n0 >= 0
    /\ n3 <= 16 /\ n2 <= 16 /\ n1 <= 16 /\ n0 <= 16
    /\ effects_of r =
       [ SetItem (s + 3) (shows n3); SetItem (s + 2) (shows n2);
         SetItem (s + 1) (shows n1); SetItem s (shows n0) ]
    /\ inventory (world_of r) !! (s + 3) = Some (shows n3)
    /\ inventory (world_of r) !! (s + 2) = Some (shows n2)
    /\ inventory (world_of r) !! (s + 1) = Some (shows n1)
    /\ inventory (world_of r) !! s = Some (shows n0)
    /\ (forall m n : Z, typeId (shows m) = typeId (shows n) -> m = n)
    /\ n3 = Z.min 16 (a / 100)
    /\ n2 = Z.min 16 (a / 100 - n3)
    /\ n1 = Z.min 16 (a / 100 - n3 - n2)
    /\ n0 = Z.min 16 (a / 100 - n3 - n2 - n1).
Proof.
  intros Ha.
  exists (seg0 a), (seg1 a), (seg2 a), (seg3 a).
  cbv zeta. rewrite fillUiBar_run.
  unfold outcome_of, world_of, effects_of; cbn [fst snd with_inventory inventory].
  destruct (segments_sum a Ha) as (Hsum & H0 & H01 & H12 & H23 & H3).
  assert (Hlook3 : forall x0 x1 x2 x3 : ItemStack,
    (<[s := x0]> (<[s + 1 := x1]> (<[s + 2 := x2]> (<[s + 3 := x3]> (inventory w)))))
      !! (s + 3) = Some x3).
  { intros. rewrite !lookup_insert_ne by lia. apply lookup_insert_eq. }
  assert (Hlook2 : forall x0 x1 x2 (m : gmap Z ItemStack),
    (<[s := x0]> (<[s + 1 := x1]> (<[s + 2 := x2]> m))) !! (s + 2) = Some x2).
  { intros. rewrite !lookup_insert_ne by lia. apply lookup_insert_eq. }
  assert (Hlook1 : forall x0 x1 (m : gmap Z ItemStack),
    (<[s := x0]> (<[s + 1 := x1]> m)) !! (s + 1) = Some x1).
  { intros. rewrite lookup_insert_ne by lia. apply lookup_insert_eq. }
  repeat split; try lia; try reflexivity.
  all: try apply Hlook3; try apply Hlook2; try apply Hlook1;
    try apply lookup_insert_eq.
  all: try (cbn [typeId]; apply segment_id_inj).
  all: unfold seg0, seg1, seg2, seg3; lia.
Qed.

End FillFacts.

(** ** Cleaning the player *)

Section PlayerFacts.
Context `{G : Game}.

Lemma clearUiItems_loop_run rest : forall i pre b w,
  player_inventory w = pre ++ rest ->
  length pre = i ->
  clearUiItems_loop i rest b w =
  (Ok (b || existsb holdsUiItem rest),
   with_player (player_cursor w) (pre ++ (keepForeign <$> rest)) w,
   clearSlotEffects i rest).
Proof.
  induction rest as [|o rest IH]; intros i pre b w Hinv Hlen.
  - cbn. rewrite orb_false_r, app_nil_r in *. rewrite <- Hinv.
    destruct w; reflexivity.
  - cbn [clearUiItems_loop existsb clearSlotEffects fmap list_fmap].
    assert (Hcons : forall x : option ItemStack,
               pre ++ x :: (keepForeign <$> rest)
               = (pre ++ [x]) ++ (keepForeign <$> rest)).
    { intros x. rewrite <- app_assoc. reflexivity. }
    destruct o as [it|]; cbn [holdsUiItem keepForeign].
    + destruct (isUiItem it) eqn:Hui.
      * unfold bind, perform.
        rewrite (IH (S i) (pre ++ [None]) true).
        -- cbn [with_player player_cursor]. rewrite <- Hcons.
           rewrite orb_true_r. reflexivity.
        -- cbn [with_player player_inventory]. rewrite Hinv.
           rewrite <- Hlen. rewrite insert_app_r_alt by lia.
           rewrite Nat.sub_diag. cbn. rewrite <- app_assoc. reflexivity.
        -- rewrite length_app. cbn. lia.
      * rewrite (IH (S i) (pre ++ [Some it]) b).
        -- rewrite <- Hcons. reflexivity.
        -- rewrite Hinv, <- app_assoc. reflexivity.
        -- rewrite length_app. cbn. lia.
    + rewrite (IH (S i) (pre ++ [None]) b).
      * rewrite <- Hcons. reflexivity.
      * rewrite Hinv, <- app_assoc. reflexivity.
      * rewrite length_app. cbn. lia.
Qed.

(** [clearUiItemsFromPlayer] never throws, touches the player only, and
    performs player clears only. *)
Lemma clearUiItemsFromPlayer_run w :
  clearUiItemsFromPlayer w = (Ok (anythingToClear w), cleanedPlayer w, clearEffects w).
Proof.
  unfold clearUiItemsFromPlayer, anythingToClear, cleanedPlayer, clearEffects.
  unfold bind at 1. unfold gets at 1.
  destruct (player_cursor w) as [it|] eqn:Hc; cbn [holdsUiItem keepForeign].
  - destruct (isUiItem it) eqn:Hui.
    + unfold bind, perform, ret, gets. cbn [with_player player_inventory].
      rewrite (clearUiItems_loop_run _ 0%nat [] true) by reflexivity.
      cbn. reflexivity.
    + unfold bind, ret, gets.
      rewrite (clearUiItems_loop_run _ 0%nat [] false) by reflexivity.
      cbn. rewrite Hc. reflexivity.
  - unfold bind, ret, gets.
    rewrite (clearUiItems_loop_run _ 0%nat [] false) by reflexivity.
    cbn. rewrite Hc. reflexivity.
Qed.

Lemma spawned_clearSlotEffects l : forall i, spawned (clearSlotEffects i l) = [].
Proof.
  induction l as [|o l IH]; intros i; [reflexivity|].
  cbn [clearSlotEffects]. unfold spawned in *. rewrite omap_app, IH.
  destruct (holdsUiItem o); reflexivity.
Qed.

Lemma spawned_clearEffects w : spawned (clearEffects w) = [].
Proof.
  unfold clearEffects, spawned. rewrite omap_app.
  fold (spawned (clearSlotEffects 0 (player_inventory w))).
  rewrite spawned_clearSlotEffects.
  destruct (holdsUiItem (player_cursor w)); reflexivity.
Qed.

Lemma clearSlotEffects_player_only l : forall i e,
  e ∈ clearSlotEffects i l -> is_player_clear e = true.
Proof.
  induction l as [|o l IH]; intros i e He; cbn [clearSlotEffects] in He.
  - inversion He.
  - apply elem_of_app in He as [He|He]; [|eauto].
    destruct (holdsUiItem o); [|inversion He].
    apply list_elem_of_singleton in He. subst. reflexivity.
Qed.

Lemma clearEffects_player_only w e :
  e ∈ clearEffects w -> is_player_clear e = true.
Proof.
  unfold clearEffects. intros He.
  apply elem_of_app in He as [He|He].
  - destruct (holdsUiItem (player_cursor w)); [|inversion He].
    apply list_elem_of_singleton in He. subst. reflexivity.
  - eapply clearSlotEffects_player_only; eauto.
Qed.

End PlayerFacts.

(** ** The item-slot renderer *)

Section ItemSlotFacts.
Context `{G : Game}.

(** The whole of [handleItemSlot] as one case analysis. *)
Lemma handleItemSlot_run loc element init w :
  handleItemSlot loc element init w =
  match machineItemStackToItemStack element (logicalSlot loc element w) with
  | None => (Throw InvalidItemType, w, [])
  | Some expected =>
      if slotChanged loc element w || init then
        (Ok tt, with_inventory (insert (index element) expected) w,
         [SetItem (index element) expected])
      else
        match inventory w !! index element with
        | None =>
            (Ok tt,
             with_inventory (insert (index element) emptySlotItem)
               (ledgerSet loc element None (cleanedPlayer w)),
             clearEffects w
               ++ [silentWrite loc element None;
                   SetItem (index element) emptySlotItem])
        | Some item =>
            if isStackableWith item expected then
              match logicalSlot loc element w with
              | Some m =>
                  if negb (Z.eqb (amount item) (amount expected)) then
                    let m' := {| typeIndex := typeIndex m; count := amount item |} in
                    (Ok tt, ledgerSet loc element (Some m') w,
                     [silentWrite loc element (Some m')])
                  else (Ok tt, w, [])
              | None => (Ok tt, w, [])
              end
            else
              let newTypeIndex := indexOf (typeId item) (allowedItems element) in
              if Z.eqb newTypeIndex (-1)
                 || negb (isStackableWith item (new_ItemStack (typeId item) 1))
              then
                (Ok tt,
                 with_inventory (insert (index element) emptySlotItem)
                   (ledgerSet loc element None (cleanedPlayer w)),
                 clearEffects w
                   ++ [silentWrite loc element None; SpawnItem item;
                       SetItem (index element) emptySlotItem])
              else
                let m' := {| typeIndex := newTypeIndex; count := amount item |} in
                (Ok tt, ledgerSet loc element (Some m') (cleanedPlayer w),
                 clearEffects w ++ [silentWrite loc element (Some m')])
        end
  end.
Proof.
  unfold handleItemSlot, logicalSlot, slotChanged.
  unfold bind at 1. unfold getMachineSlotItem at 1. unfold gets at 1.
  destruct (slotItems w !! (getBlockUniqueId loc, slotId element)) as [m|] eqn:HL.
  all: destruct (machineItemStackToItemStack element _) as [expected|] eqn:HE;
    [|reflexivity].
  all: unfold bind at 1; cbn [constructed]; unfold ret at 1.
  all: unfold bind at 1; unfold gets at 1.
  all: unfold bind at 1; unfold getItem at 1; unfold gets at 1.
  all: destruct (includes_slot _ _ || init) eqn:Hforced; [reflexivity|].
  all: destruct (inventory w !! index element) as [item|] eqn:Hslot.
  all: try (destruct (isStackableWith item expected) eqn:Hstack;
            [ try destruct (negb (amount item =? amount expected)); reflexivity | ]).
  all: unfold bind at 1; rewrite clearUiItemsFromPlayer_run.
  all: try destruct (_ || negb _).
  all: try (cbn [machineItemStackToItemStack] in HE; injection HE as <-).
  all: unfold bind, setMachineSlotItem, spawnItem, setItem, perform, constructed, ret;
    cbn [machineItemStackToItemStack app]; rewrite ?app_nil_r; reflexivity.
Qed.

(** C2. A forced call (the slot is in the Dirty-Slot Set of the block, or
    the pass is the initial one) writes the item that represents the logical
    content into the container slot at the element's index, whatever the
    slot held, and does nothing else: the single effect is that slot write,
    and the rest of the world is as before. *)
Theorem handleItemSlot_forced loc element init w expected :
  slotChanged loc element w = true \/ init = true ->
  machineItemStackToItemStack element (logicalSlot loc element w) = Some expected ->
  handleItemSlot loc element init w =
    (Ok tt, with_inventory (insert (index element) expected) w,
     [SetItem (index element) expected])
  /\ (logicalSlot loc element w = None -> expected = emptySlotItem).
Proof.
  intros Hforced Hexp. split.
  - rewrite handleItemSlot_run, Hexp.
    assert (slotChanged loc element w || init = true) as ->.
    { destruct Hforced as [-> | ->]; [reflexivity | apply orb_true_r]. }
    reflexivity.
  - intros HL. rewrite HL in Hexp.
    cbn [machineItemStackToItemStack] in Hexp. injection Hexp as <-. reflexivity.
Qed.

(** C4. A call that is not forced and finds the container slot empty cleans
    the player, silently ([setChanged = false]) removes the Logical Item
    Slot, writes the empty placeholder into the container slot, and spawns
    no item. *)
Theorem handleItemSlot_player_cleared loc element w expected :
  slotChanged loc element w = false ->
  machineItemStackToItemStack element (logicalSlot loc element w) = Some expected ->
  inventory w !! index element = None ->
  let r := handleItemSlot loc element false w in
  r = (Ok tt,
       with_inventory (insert (index element) emptySlotItem)
         (ledgerSet loc element None (cleanedPlayer w)),
       clearEffects w
         ++ [silentWrite loc element None; SetItem (index element) emptySlotItem])
  /\ logicalSlot loc element (world_of r) = None
  /\ inventory (world_of r) !! index element = Some emptySlotItem
  /\ spawned (effects_of r) = [].
Proof.
  intros Hclean Hexp Hslot r. subst r.
  rewrite handleItemSlot_run, Hexp, Hclean, Hslot. cbn [orb].
  split; [reflexivity|].
  unfold world_of, effects_of, logicalSlot; cbn [fst snd].
  split; [|split].
  - cbn. apply lookup_delete_eq.
  - cbn. apply lookup_insert_eq.
  - unfold spawned. rewrite omap_app.
    fold (spawned (clearEffects w)). rewrite spawned_clearEffects. reflexivity.
Qed.

Lemma indexOf_from_absent x l : forall i, x ∉ l -> indexOf_from i x l = -1.
Proof.
  induction l as [|y l IH]; intros i Hx; [reflexivity|].
  cbn [indexOf_from]. apply not_elem_of_cons in Hx as [Hne Hx].
  destruct (String.eqb_spec y x); [congruence | auto].
Qed.

Lemma indexOf_from_present x l : forall i,
  0 <= i -> x ∈ l ->
  i <= indexOf_from i x l
  /\ l !! Z.to_nat (indexOf_from i x l - i) = Some x.
Proof.
  induction l as [|y l IH]; intros i Hi Hx; [inversion Hx|].
  cbn [indexOf_from]. destruct (String.eqb_spec y x) as [->|Hne].
  - split; [lia|]. rewrite Z.sub_diag. reflexivity.
  - apply elem_of_cons in Hx as [Hx|Hx]; [congruence|].
    destruct (IH (i + 1) ltac:(lia) Hx) as [Hle Hlk]. split; [lia|].
    replace (Z.to_nat (indexOf_from (i + 1) x l - i))
      with (S (Z.to_nat (indexOf_from (i + 1) x l - (i + 1)))) by lia.
    exact Hlk.
Qed.

(** [indexOf] answers [-1] exactly for the kinds that are not allowed, and
    otherwise an index at which the list holds the kind. *)
Lemma indexOf_absent x l : x ∉ l -> indexOf x l = -1.
Proof. apply indexOf_from_absent. Qed.

Lemma indexOf_present x (element : UiItemSlotElement) :
  x ∈ allowedItems element ->
  indexOf x (allowedItems element) <> -1
  /\ allowedItem element (indexOf x (allowedItems element)) = Some x.
Proof.
  intros Hx. unfold indexOf, allowedItem.
  destruct (indexOf_from_present x (allowedItems element) 0 ltac:(lia) Hx)
    as [Hle Hlk].
  rewrite Z.sub_0_r in Hlk. split; [lia|].
  destruct (Z.ltb_spec (indexOf_from 0 x (allowedItems element)) 0); [lia|].
  exact Hlk.
Qed.

(** C3. A call that is not forced and finds in the container slot an item
    that does not stack with the expected one: when the item's kind is among
    [allowedItems] and the item stacks with a clean stack of its own kind,
    the Logical Item Slot is silently set to the kind's index and the
    visible amount, the container is left alone and nothing is spawned;
    otherwise the item is spawned at the player, the Logical Item Slot is
    silently removed and the empty placeholder is written to the container
    slot. *)
Theorem handleItemSlot_incompatible loc element w expected item :
  slotChanged loc element w = false ->
  machineItemStackToItemStack element (logicalSlot loc element w) = Some expected ->
  inventory w !! index element = Some item ->
  isStackableWith item expected = false ->
  let r := handleItemSlot loc element false w in
  let k := indexOf (typeId item) (allowedItems element) in
  let accepted := {| typeIndex := k; count := amount item |} in
  (typeId item ∈ allowedItems element ->
   isStackableWith item (new_ItemStack (typeId item) 1) = true ->
   r = (Ok tt, ledgerSet loc element (Some accepted) (cleanedPlayer w),
        clearEffects w ++ [silentWrite loc element (Some accepted)])
   /\ allowedItem element k = Some (typeId item)
   /\ logicalSlot loc element (world_of r) = Some accepted
   /\ inventory (world_of r) = inventory w
   /\ spawned (effects_of r) = [])
  /\
  (typeId item ∉ allowedItems element
   \/ isStackableWith item (new_ItemStack (typeId item) 1) = false ->
   r = (Ok tt,
        with_inventory (insert (index element) emptySlotItem)
          (ledgerSet loc element None (cleanedPlayer w)),
        clearEffects w
          ++ [silentWrite loc element None; SpawnItem item;
              SetItem (index element) emptySlotItem])
   /\ spawned (effects_of r) = [item]
   /\ logicalSlot loc element (world_of r) = None
   /\ inventory (world_of r) !! index element = Some emptySlotItem).
Proof.
  intros Hclean Hexp Hslot Hstack r k accepted. subst r.
  rewrite handleItemSlot_run, Hexp, Hclean, Hslot, Hstack. cbn [orb].
  fold k. split.
  - intros Hin Hown. destruct (indexOf_present _ _ Hin) as [Hk Hkind]. fold k in Hk, Hkind.
    rewrite Hown. destruct (Z.eqb_spec k (-1)); [contradiction|]. cbn [orb negb].
    split; [reflexivity|]. split; [exact Hkind|].
    unfold world_of, effects_of, logicalSlot; cbn [fst snd].
    split; [|split].
    + cbn. apply lookup_insert_eq.
    + reflexivity.
    + unfold spawned. rewrite omap_app.
      fold (spawned (clearEffects w)). rewrite spawned_clearEffects. reflexivity.
  - intros Hrej.
    assert (Z.eqb k (-1)
            || negb (isStackableWith item (new_ItemStack (typeId item) 1)) = true)
      as ->.
    { destruct Hrej as [Hnot | ->]; [|apply orb_true_r].
      unfold k. rewrite (indexOf_absent _ _ Hnot). reflexivity. }
    split; [reflexivity|].
    unfold world_of, effects_of, logicalSlot; cbn [fst snd].
    split; [|split].
    + unfold spawned. rewrite omap_app.
      fold (spawned (clearEffects w)). rewrite spawned_clearEffects. reflexivity.
    + cbn. apply lookup_delete_eq.
    + cbn. apply lookup_insert_eq.
Qed.

(** C9. In a game where stacking ignores amounts and the placeholder stacks
    with itself, a call that is neither forced nor initial, followed by a
    second such call on the world the first one left, makes the second call
    perform no effect at all (so no container-slot write and no ledger
    write) and leave the world as it found it. *)
Theorem handleItemSlot_idempotent loc element w :
  stacking_ignores_amount ->
  placeholder_stacks ->
  slotChanged loc element w = false ->
  let r1 := handleItemSlot loc element false w in
  let r2 := handleItemSlot loc element false (world_of r1) in
  effects_of r2 = []
  /\ world_of r2 = world_of r1
  /\ outcome_of r2 = outcome_of r1
  /\ (forall e, e ∈ effects_of r2 -> is_slot_write e = false /\ is_ledger_write e = false).
Proof.
  intros Hamount Hplace Hclean r1 r2.
  assert (effects_of r2 = [] /\ world_of r2 = world_of r1
          /\ outcome_of r2 = outcome_of r1) as (He & Hw & Ho).
  2:{ split; [exact He|]. split; [exact Hw|]. split; [exact Ho|].
      intros e Hin. rewrite He in Hin. inversion Hin. }
  subst r2 r1. rewrite (handleItemSlot_run loc element false w).
  destruct (machineItemStackToItemStack element (logicalSlot loc element w))
    as [expected|] eqn:Hexp.
  2:{ cbn [world_of fst snd]. rewrite handleItemSlot_run, Hexp. auto. }
  rewrite Hclean. cbn [orb].
  assert (Hsettled : forall w1,
    logicalSlot loc element w1 = None ->
    slotChanged loc element w1 = false ->
    inventory w1 !! index element = Some emptySlotItem ->
    handleItemSlot loc element false w1 = (Ok tt, w1, [])).
  { intros w1 HL Hc Hi. rewrite handleItemSlot_run, HL.
    cbn [machineItemStackToItemStack]. fold emptySlotItem.
    rewrite Hc, Hi, Hplace. reflexivity. }
  assert (Hkept : forall w1 m' kind item,
    logicalSlot loc element w1 = Some m' ->
    allowedItem element (typeIndex m') = Some kind ->
    slotChanged loc element w1 = false ->
    inventory w1 !! index element = Some item ->
    count m' = amount item ->
    isStackableWith item (new_ItemStack kind (amount item)) = true ->
    handleItemSlot loc element false w1 = (Ok tt, w1, [])).
  { intros w1 m' kind item HL Hk Hc Hi Hcount Hs. rewrite handleItemSlot_run, HL.
    cbn [machineItemStackToItemStack]. rewrite Hk, Hc, Hi, Hcount, Hs.
    cbn [orb amount new_ItemStack]. rewrite Z.eqb_refl. reflexivity. }
  destruct (inventory w !! index element) as [item|] eqn:Hslot.
  - destruct (isStackableWith item expected) eqn:Hstack.
    + destruct (logicalSlot loc element w) as [m|] eqn:HL.
      * cbn [machineItemStackToItemStack] in Hexp.
        destruct (allowedItem element (typeIndex m)) as [kind|] eqn:Hkind;
          [|discriminate].
        injection Hexp as <-. cbn [amount new_ItemStack].
        destruct (Z.eqb_spec (amount item) (count m)) as [Heq|Hne]; cbn [negb].
        -- unfold world_of, effects_of, outcome_of; cbn [fst snd].
           rewrite (Hkept w m kind item); auto.
           rewrite Heq. exact Hstack.
        -- cbv zeta. unfold world_of, effects_of, outcome_of; cbn [fst snd].
           rewrite (Hkept _ {| typeIndex := typeIndex m; count := amount item |}
                      kind item); auto.
           ++ unfold logicalSlot, ledgerSet. cbn. apply lookup_insert_eq.
           ++ rewrite (Hamount item kind (amount item) (count m)). exact Hstack.
      * unfold world_of, effects_of, outcome_of; cbn [fst snd].
        rewrite handleItemSlot_run, HL, Hexp, Hclean, Hslot, Hstack. auto.
    + cbv zeta.
      destruct (Z.eqb_spec (indexOf (typeId item) (allowedItems element)) (-1))
        as [Hk|Hk]; cbn [orb].
      * unfold world_of, effects_of, outcome_of; cbn [fst snd].
        rewrite Hsettled; auto.
        -- unfold logicalSlot, ledgerSet. cbn. apply lookup_delete_eq.
        -- cbn. apply lookup_insert_eq.
      * destruct (isStackableWith item (new_ItemStack (typeId item) 1)) eqn:Hown;
          cbn [negb].
        -- assert (typeId item ∈ allowedItems element) as Hin.
           { destruct (decide (typeId item ∈ allowedItems element)) as [|Hnot]; [done|].
             apply indexOf_absent in Hnot. contradiction. }
           destruct (indexOf_present _ _ Hin) as [_ Hkind].
           unfold world_of, effects_of, outcome_of; cbn [fst snd].
           rewrite (Hkept _ {| typeIndex := indexOf (typeId item) (allowedItems element);
                               count := amount item |} (typeId item) item); auto.
           ++ unfold logicalSlot, ledgerSet. cbn. apply lookup_insert_eq.
           ++ rewrite (Hamount item (typeId item) (amount item) 1). exact Hown.
        -- unfold world_of, effects_of, outcome_of; cbn [fst snd].
           rewrite Hsettled; auto.
           ++ unfold logicalSlot, ledgerSet. cbn. apply lookup_delete_eq.
           ++ cbn. apply lookup_insert_eq.
  - unfold world_of, effects_of, outcome_of; cbn [fst snd].
    rewrite Hsettled; auto.
    + unfold logicalSlot, ledgerSet. cbn. apply lookup_delete_eq.
    + cbn. apply lookup_insert_eq.
Qed.

End ItemSlotFacts.

(** ** The storage-bar renderer *)

Section BarFacts.
Context `{G : Game}.

Lemma handleBarItems_scan_run s w :
  handleBarItems_scan 4 s w = (Ok tt, scanWorld s w, scanEffects s w).
Proof.
  unfold scanWorld, scanEffects, foreignOccupant, scanStop.
  cbn [handleBarItems_scan find].
  replace (s + 1 + 1) with (s + 2) by lia.
  replace (s + 2 + 1) with (s + 3) by lia.
  unfold lacksUiTag.
  (* one turn of the scan at slot [i]: either the scan stops there, or the
     slot holds a tagged item and the next turn remains *)
  assert (Hturn : forall i (rest : M unit) (final : Outcome unit * World * list Effect),
    (forall it, inventory w !! i = Some it -> hasTag it UI_ITEM_TAG = true ->
       rest w = final) ->
    bind (getItem i)
      (fun inventoryItem =>
         match inventoryItem with
         | Some it =>
             if hasTag it UI_ITEM_TAG then rest
             else (clearUiItemsFromPlayer ;; spawnItem it)
         | None => (clearUiItemsFromPlayer ;; ret tt)
         end) w
    = match inventory w !! i with
      | Some it =>
          if hasTag it UI_ITEM_TAG then final
          else (Ok tt, cleanedPlayer w, clearEffects w ++ [SpawnItem it])
      | None => (Ok tt, cleanedPlayer w, clearEffects w)
      end).
  { intros i rest final Hrest.
    unfold bind at 1, getItem at 1, gets at 1.
    destruct (inventory w !! i) as [it|] eqn:Hi.
    - destruct (hasTag it UI_ITEM_TAG) eqn:Htag.
      + rewrite (Hrest it eq_refl Htag). destruct final as [[r w2] e2]. reflexivity.
      + unfold bind, spawnItem, perform. rewrite clearUiItemsFromPlayer_run.
        reflexivity.
    - unfold bind, ret. rewrite clearUiItemsFromPlayer_run.
      rewrite app_nil_r. reflexivity. }
  erewrite Hturn.
  2:{ intros i0 H0 T0. erewrite Hturn.
      2:{ intros i1 H1 T1. erewrite Hturn.
          2:{ intros i2 H2 T2. erewrite Hturn.
              2:{ intros i3 H3 T3. unfold ret. reflexivity. }
              reflexivity. }
          reflexivity. }
      reflexivity. }
  destruct (inventory w !! s) as [i0|] eqn:H0; cbn [negb];
    [|rewrite H0; cbn; rewrite app_nil_r; reflexivity].
  destruct (hasTag i0 UI_ITEM_TAG); cbn [negb]; [|rewrite H0; reflexivity].
  destruct (inventory w !! (s + 1)) as [i1|] eqn:H1; cbn [negb];
    [|rewrite H1; cbn; rewrite app_nil_r; reflexivity].
  destruct (hasTag i1 UI_ITEM_TAG); cbn [negb]; [|rewrite H1; reflexivity].
  destruct (inventory w !! (s + 2)) as [i2|] eqn:H2; cbn [negb];
    [|rewrite H2; cbn; rewrite app_nil_r; reflexivity].
  destruct (hasTag i2 UI_ITEM_TAG); cbn [negb]; [|rewrite H2; reflexivity].
  destruct (inventory w !! (s + 3)) as [i3|] eqn:H3; cbn [negb];
    [|rewrite H3; cbn; rewrite app_nil_r; reflexivity].
  destruct (hasTag i3 UI_ITEM_TAG); cbn [negb]; [|rewrite H3; reflexivity].
  reflexivity.
Qed.

Lemma fillDisabledUiBar_run s w :
  fillDisabledUiBar s w =
  (Ok tt,
   with_inventory
     (fun inv =>
        <[s + 3 := disabledBarItem]>
          (<[s + 2 := disabledBarItem]>
             (<[s + 1 := disabledBarItem]> (<[s := disabledBarItem]> inv)))) w,
   [ SetItem s disabledBarItem; SetItem (s + 1) disabledBarItem;
     SetItem (s + 2) disabledBarItem; SetItem (s + 3) disabledBarItem ]).
Proof. reflexivity. Qed.

Lemma handleBarItems_run location s type change w :
  handleBarItems location s type change w =
  match fillOf location s type change w with
  | Some fill =>
      (outcome_of (fill (scanWorld s w)), world_of (fill (scanWorld s w)),
       scanEffects s w ++ effects_of (fill (scanWorld s w)))
  | None => (Throw (UnknownStorageType type), scanWorld s w, scanEffects s w)
  end.
Proof.
  unfold handleBarItems, fillOf. unfold bind at 1.
  rewrite handleBarItems_scan_run.
  assert (Hreg : storageTypeRegistry (scanWorld s w) = storageTypeRegistry w).
  { unfold scanWorld. destruct (scanStop s (inventory w)); reflexivity. }
  assert (Hsto : machineStorage (scanWorld s w) = machineStorage w).
  { unfold scanWorld. destruct (scanStop s (inventory w)); reflexivity. }
  destruct (String.eqb type "_disabled").
  - rewrite fillDisabledUiBar_run. reflexivity.
  - unfold bind at 1, gets at 1. rewrite Hreg.
    destruct (storageTypeRegistry w !! type) as [o|].
    + unfold bind at 1, getMachineStorage at 1, gets at 1. rewrite Hsto.
      rewrite fillUiBar_run. cbn [app]. reflexivity.
    + unfold throw. rewrite app_nil_r. reflexivity.
Qed.

Lemma spawned_scanEffects s w :
  spawned (scanEffects s w) = foreignOccupant s (inventory w).
Proof.
  unfold scanEffects, foreignOccupant.
  destruct (scanStop s (inventory w)) as [i|]; [|reflexivity].
  unfold spawned. rewrite omap_app.
  fold (spawned (clearEffects w)). rewrite spawned_clearEffects.
  destruct (inventory w !! i); reflexivity.
Qed.

Lemma foreignOccupant_length s inv : (length (foreignOccupant s inv) <= 1)%nat.
Proof.
  unfold foreignOccupant. destruct (scanStop s inv) as [i|]; cbn; [|lia].
  destruct (inv !! i); cbn; lia.
Qed.

(** C10. A storage-bar call scans its four slots in ascending order and
    stops at the first one whose occupant lacks the UI tag: there it cleans
    the player and spawns the occupant if the slot holds one.  The items the
    call spawns are therefore that one occupant at most; everything the
    call does after the scan is a slot write, and when the call returns
    each of the four slots holds the bar item the fill wrote there, so a
    foreign item further up the bar is replaced without being spawned. *)
Theorem handleBarItems_ejects_at_most_one location s type change w :
  let r := handleBarItems location s type change w in
  spawned (effects_of r) = foreignOccupant s (inventory w)
  /\ (length (spawned (effects_of r)) <= 1)%nat
  /\ (forall i, scanStop s (inventory w) = Some i ->
        s <= i <= s + 3
        /\ lacksUiTag (inventory w) i = true
        /\ (forall j, s <= j < i -> lacksUiTag (inventory w) j = false)
        /\ player_cursor (world_of r) = player_cursor (cleanedPlayer w)
        /\ player_inventory (world_of r) = player_inventory (cleanedPlayer w))
  /\ (scanStop s (inventory w) = None ->
        (forall j, s <= j <= s + 3 -> lacksUiTag (inventory w) j = false)
        /\ player_cursor (world_of r) = player_cursor w
        /\ player_inventory (world_of r) = player_inventory w)
  /\ (exists fillEffects,
        effects_of r = scanEffects s w ++ fillEffects
        /\ (forall e, e ∈ fillEffects -> is_slot_write e = true)
        /\ (outcome_of r = Ok tt ->
            forall k, 0 <= k <= 3 ->
              exists bar, SetItem (s + k) bar ∈ fillEffects
                          /\ inventory (world_of r) !! (s + k) = Some bar
                          /\ isBarItem change bar)).
Proof.
  intros r. subst r. rewrite handleBarItems_run.
  assert (Hplayer : forall fill, fillOf location s type change w = Some fill ->
            player_cursor (world_of (fill (scanWorld s w))) = player_cursor (scanWorld s w)
            /\ player_inventory (world_of (fill (scanWorld s w)))
               = player_inventory (scanWorld s w)
            /\ outcome_of (fill (scanWorld s w)) = Ok tt
            /\ (forall e, e ∈ effects_of (fill (scanWorld s w)) -> is_slot_write e = true)
            /\ forall k, 0 <= k <= 3 ->
                 exists bar, SetItem (s + k) bar ∈ effects_of (fill (scanWorld s w))
                   /\ inventory (world_of (fill (scanWorld s w))) !! (s + k) = Some bar
                   /\ isBarItem change bar).
  { intros fill Hfill. unfold fillOf in Hfill.
    destruct (String.eqb type "_disabled").
    - injection Hfill as <-. rewrite fillDisabledUiBar_run.
      unfold world_of, outcome_of, effects_of; cbn [fst snd with_inventory
        player_cursor player_inventory inventory].
      repeat split.
      + intros e He. repeat (apply elem_of_cons in He as [-> | He]; [reflexivity|]).
        inversion He.
      + intros k Hk. exists disabledBarItem.
        assert (k = 0 \/ k = 1 \/ k = 2 \/ k = 3) as Hcases by lia.
        destruct Hcases as [K | [K | [K | K]]]; subst k; rewrite ?Z.add_0_r.
        all: split; [solve [repeat constructor]|].
        all: split; [|left; reflexivity].
        all: rewrite ?lookup_insert_ne by lia; apply lookup_insert_eq.
    - destruct (storageTypeRegistry w !! type) as [o|]; [|discriminate].
      injection Hfill as <-. rewrite fillUiBar_run.
      unfold world_of, outcome_of, effects_of; cbn [fst snd with_inventory
        player_cursor player_inventory inventory].
      repeat split.
      + intros e He. repeat (apply elem_of_cons in He as [-> | He]; [reflexivity|]).
        inversion He.
      + intros k Hk.
        assert (k = 0 \/ k = 1 \/ k = 2 \/ k = 3) as Hcases by lia.
        destruct Hcases as [K | [K | [K | K]]]; subst k; rewrite ?Z.add_0_r.
        all: eexists; split; [|split];
          [|rewrite ?lookup_insert_ne by lia; apply lookup_insert_eq|].
        all: try solve [repeat constructor].
        all: right; repeat eexists. }
  assert (Hspawn : forall fill, fillOf location s type change w = Some fill ->
            spawned (effects_of (fill (scanWorld s w))) = []).
  { intros fill Hfill. destruct (Hplayer fill Hfill) as (_ & _ & _ & Hwrites & _).
    induction (effects_of (fill (scanWorld s w))) as [|e es IH]; [reflexivity|].
    assert (is_slot_write e = true) as He by (apply Hwrites; left).
    destruct e; try discriminate. cbn. apply IH.
    intros e' He'. apply Hwrites. right. exact He'. }
  assert (Hstop : forall i, scanStop s (inventory w) = Some i ->
            s <= i <= s + 3 /\ lacksUiTag (inventory w) i = true
            /\ forall j, s <= j < i -> lacksUiTag (inventory w) j = false).
  { unfold scanStop. cbn [find]. intros i Hi.
    destruct (lacksUiTag (inventory w) s) eqn:H0.
    { injection Hi as <-. repeat split; auto; lia. }
    destruct (lacksUiTag (inventory w) (s + 1)) eqn:H1.
    { injection Hi as <-. repeat split; auto; try lia.
      intros j Hj. replace j with s by lia. exact H0. }
    destruct (lacksUiTag (inventory w) (s + 2)) eqn:H2.
    { injection Hi as <-. repeat split; auto; try lia.
      intros j Hj. assert (j = s \/ j = s + 1) as [-> | ->] by lia; assumption. }
    destruct (lacksUiTag (inventory w) (s + 3)) eqn:H3; [|discriminate].
    injection Hi as <-. repeat split; auto; try lia.
    intros j Hj.
    assert (j = s \/ j = s + 1 \/ j = s + 2) as [-> | [-> | ->]] by lia; assumption. }
  assert (Hnone : scanStop s (inventory w) = None ->
            forall j, s <= j <= s + 3 -> lacksUiTag (inventory w) j = false).
  { unfold scanStop. cbn [find]. intros Hn j Hj.
    destruct (lacksUiTag (inventory w) s) eqn:H0; [discriminate|].
    destruct (lacksUiTag (inventory w) (s + 1)) eqn:H1; [discriminate|].
    destruct (lacksUiTag (inventory w) (s + 2)) eqn:H2; [discriminate|].
    destruct (lacksUiTag (inventory w) (s + 3)) eqn:H3; [discriminate|].
    assert (j = s \/ j = s + 1 \/ j = s + 2 \/ j = s + 3)
      as [-> | [-> | [-> | ->]]] by lia; assumption. }
  destruct (fillOf location s type change w) as [fill|] eqn:Hfill.
  - destruct (Hplayer fill eq_refl) as (Hc & Hi & Hok & Hwrites & Hbars).
    specialize (Hspawn fill eq_refl).
    remember (fill (scanWorld s w)) as rf eqn:Hrf in *.
    rewrite !world_of_run, !effects_of_run, !outcome_of_run.
    assert (Hsp : spawned (scanEffects s w ++ effects_of rf)
                  = foreignOccupant s (inventory w)).
    { unfold spawned at 1. rewrite omap_app.
      fold (spawned (scanEffects s w)).
      fold (spawned (effects_of rf)).
      rewrite Hspawn, app_nil_r. apply spawned_scanEffects. }
    split; [exact Hsp|]. split; [rewrite Hsp; apply foreignOccupant_length|].
    split; [|split].
    + intros i Hs. destruct (Hstop i Hs) as (? & ? & ?).
      rewrite Hc, Hi. unfold scanWorld. rewrite Hs. auto.
    + intros Hs. rewrite Hc, Hi. unfold scanWorld. rewrite Hs. auto.
    + exists (effects_of rf). split; [reflexivity|].
      split; [exact Hwrites|]. intros _ k Hk.
      destruct (Hbars k Hk) as (bar & Hin & Hlk & Hbar).
      exists bar. auto.
  - unfold world_of, outcome_of, effects_of. cbn [fst snd].
    split; [apply spawned_scanEffects|].
    split; [rewrite spawned_scanEffects; apply foreignOccupant_length|].
    split; [|split].
    + intros i Hs. destruct (Hstop i Hs) as (? & ? & ?).
      unfold scanWorld. rewrite Hs. auto.
    + intros Hs. unfold scanWorld. rewrite Hs. auto.
    + exists []. rewrite app_nil_r. split; [reflexivity|].
      split; [intros e He; inversion He | discriminate].
Qed.

End BarFacts.

(** ** Progress indicators *)

Section ProgressFacts.
Context `{G : Game}.

(** The renderer's test rejects exactly the values that are not a whole
    number between 0 and the maximum of the indicator. *)
Lemma progress_value_accepted indicator value :
  progress_value_rejected indicator value = false
  <-> exists n : Z, (value == inject_Z n)%Q
                    /\ 0 <= n <= PROGRESS_INDICATOR_MAX_VALUES indicator.
Proof.
  unfold progress_value_rejected, Q_ltb, Number_isInteger.
  rewrite !orb_false_iff, !negb_false_iff, !Qle_bool_iff, Z.eqb_eq.
  destruct value as [p q]. unfold Qle, Qeq. cbn [Qnum Qden inject_Z].
  split.
  - intros [[H0 Hmax] Hint].
    apply Z.mod_divide in Hint; [|lia]. destruct Hint as [n Hn].
    exists n. subst p. split; [lia|]. nia.
  - intros (n & Hn & Hrange).
    rewrite Z.mul_1_r in Hn. subst p.
    repeat split; [nia | nia | apply Z.mod_mul; lia].
Qed.

Lemma bind_assoc {A B C} (m : M A) (f : A -> M B) (g : B -> M C) w :
  bind (bind m f) g w = bind m (fun a => bind (f a) g) w.
Proof.
  unfold bind. destruct (m w) as [[[a|err] w1] e1]; [|reflexivity].
  destruct (f a w1) as [[[b|err] w2] e2]; [|reflexivity].
  destruct (g b w2) as [[r w3] e3]. rewrite app_assoc. reflexivity.
Qed.

Lemma bind_ext {A B} (m : M A) (f g : A -> M B) w :
  (forall a w1, f a w1 = g a w1) -> bind m f w = bind m g w.
Proof.
  intros Hfg. unfold bind. destruct (m w) as [[[a|err] w1] e1]; [|reflexivity].
  rewrite Hfg. reflexivity.
Qed.

(** The loop renders a prefix of the elements and then goes on with the
    rest. *)
Lemma renderElements_app loc init sbc pis before : forall after w,
  renderElements loc init sbc pis (before ++ after) w
  = bind (renderElements loc init sbc pis before)
      (fun _ => renderElements loc init sbc pis after) w.
Proof.
  induction before as [|[id options] before IH]; intros after w.
  - cbn [app renderElements]. unfold bind, ret.
    destruct (renderElements loc init sbc pis after w) as [[r w1] e1]. reflexivity.
  - cbn [app renderElements]. rewrite bind_assoc.
    apply bind_ext. intros _ w1. apply IH.
Qed.

(** C6. A progress value that is not a whole number between 0 and the
    maximum of the indicator (16 for the arrow, 13 for the flame) makes the
    progress renderer throw before it reads or writes anything: the world is
    untouched and no effect is performed.  The throw ends the pass: of a
    pass whose element list reaches such an indicator, only the elements in
    front of it are rendered, the ones behind it are not, and the pass ends
    in the same error. *)
Theorem handleProgressIndicator_rejects index indicator value w :
  ~ (exists n : Z, (value == inject_Z n)%Q
                   /\ 0 <= n <= PROGRESS_INDICATOR_MAX_VALUES indicator) ->
  handleProgressIndicator index indicator value w
    = (Throw (BadProgressValue indicator value), w, [])
  /\ forall definition entity init result pis id before after w1 e1,
       uiElements definition
         = Some (before ++ (id, progressIndicator indicator index) :: after) ->
       falsy (updateUiEvent definition) = false ->
       entity_isValid w = true ->
       progressIndicators result = Some pis ->
       pis !! id = Some value ->
       renderElements (blockLocation entity) init
         (mergeStorageBars (storageBars result))
         (mergeProgressIndicators (progressIndicators result)) before w
         = (Ok tt, w1, e1) ->
       updateEntityUi definition entity init result w
         = (Throw (BadProgressValue indicator value), w1, e1).
Proof.
  intros Hbad.
  assert (Hrej : progress_value_rejected indicator value = true).
  { destruct (progress_value_rejected indicator value) eqn:Hr; [reflexivity|].
    apply progress_value_accepted in Hr. contradiction. }
  assert (Hthrow : forall w0, handleProgressIndicator index indicator value w0
                     = (Throw (BadProgressValue indicator value), w0, [])).
  { intros w0. unfold handleProgressIndicator. rewrite Hrej. reflexivity. }
  split; [apply Hthrow|].
  intros definition entity init result pis id before after w1 e1
    Hels Hhandler Hvalid Hpis Hvalue Hbefore.
  unfold updateEntityUi. rewrite Hels, Hhandler.
  unfold bind at 1, gets at 1. rewrite Hvalid. cbn [negb].
  unfold bind at 1. rewrite renderElements_app.
  unfold bind at 1. rewrite Hbefore.
  cbn [renderElements renderElement]. unfold bind at 1.
  rewrite Hpis. unfold mergeProgressIndicators, spread, getProperty.
  rewrite (right_id_L ∅ (∪)), Hvalue.
  rewrite Hthrow. rewrite app_nil_r. reflexivity.
Qed.

End ProgressFacts.

(** ** The pass *)

Section PassFacts.
Context `{G : Game}.

(** C7. A pass whose handler call resumes (the definition has UI elements
    and an update handler, so the call was made) to find the entity no
    longer valid returns normally, leaves the world as it is and performs no
    effect: no slot write, no ledger write, no spawn, no error. *)
Theorem updateEntityUi_invalid_entity definition entity init result elements w :
  uiElements definition = Some elements ->
  falsy (updateUiEvent definition) = false ->
  entity_isValid w = false ->
  updateEntityUi definition entity init result w = (Ok tt, w, []).
Proof.
  intros Hels Hhandler Hinvalid.
  unfold updateEntityUi. rewrite Hels, Hhandler.
  unfold bind, gets. rewrite Hinvalid. reflexivity.
Qed.

(** A pass that resumes with a valid entity renders the elements and, if
    none of them throws, empties [machineChangedItemSlots]. *)
Lemma updateEntityUi_run definition entity init result elements w :
  uiElements definition = Some elements ->
  falsy (updateUiEvent definition) = false ->
  entity_isValid w = true ->
  updateEntityUi definition entity init result w =
  match renderElements (blockLocation entity) init
          (mergeStorageBars (storageBars result))
          (mergeProgressIndicators (progressIndicators result)) elements w with
  | (Ok _, w1, e1) => (Ok tt, with_changedSlots (fun _ => ∅) w1, e1)
  | (Throw err, w1, e1) => (Throw err, w1, e1)
  end.
Proof.
  intros Hels Hhandler Hvalid.
  unfold updateEntityUi. rewrite Hels, Hhandler.
  unfold bind at 1, gets at 1. rewrite Hvalid. cbn [negb].
  unfold bind at 1.
  destruct (renderElements _ _ _ _ elements w) as [[[[]|err] w1] e1];
    cbn [app]; rewrite ?app_nil_r; reflexivity.
Qed.

(** C8. A pass that gets through its element loop ends by emptying
    [machineChangedItemSlots] altogether: afterwards no block identity has
    a changed slot recorded, whichever block the pass was for. *)
Theorem updateEntityUi_clears_all_changed_slots definition entity init result w :
  entity_isValid w = true ->
  outcome_of (updateEntityUi definition entity init result w) = Ok tt ->
  machineChangedItemSlots (world_of (updateEntityUi definition entity init result w)) = ∅
  /\ forall uid : string,
       machineChangedItemSlots
         (world_of (updateEntityUi definition entity init result w)) !! uid = None.
Proof.
  intros Hvalid Hok.
  assert (Hempty : machineChangedItemSlots
            (world_of (updateEntityUi definition entity init result w)) = ∅).
  { destruct (uiElements definition) as [elements|] eqn:Hels.
    2:{ unfold updateEntityUi in Hok. rewrite Hels in Hok. discriminate. }
    destruct (falsy (updateUiEvent definition)) eqn:Hhandler.
    { unfold updateEntityUi in Hok. rewrite Hels, Hhandler in Hok. discriminate. }
    rewrite (updateEntityUi_run _ _ _ _ elements) in * by assumption.
    destruct (renderElements _ _ _ _ elements w) as [[[[]|err] w1] e1];
      [reflexivity | discriminate]. }
  split; [exact Hempty|]. intros uid. rewrite Hempty. apply lookup_empty.
Qed.

(** ** Merging the handler's response *)

Lemma getProperty_own {A} (object : gmap string A) key a :
  object !! key = Some a -> getProperty object key = own a.
Proof. intros H. unfold getProperty. rewrite H. reflexivity. Qed.

Lemma mergeStorageBar_fold l : forall (m : gmap string UiStorageBarUpdateOptions) id,
  fold_left mergeStorageBar l m !! id =
  match m !! id with
  | Some prev =>
      Some {| element := element prev; type := type prev;
              change := sumFrom (change prev) (change <$> directivesFor id l) |}
  | None =>
      if inherited id then None
      else
        match directivesFor id l with
        | [] => None
        | d :: ds => Some {| element := element d; type := type d;
                             change := sumFrom (change d) (change <$> ds) |}
        end
  end.
Proof.
  induction l as [|d l IH]; intros m id.
  - cbn. destruct (m !! id) as [[e t c]|]; [reflexivity|].
    destruct (inherited id); reflexivity.
  - cbn [fold_left]. rewrite IH. unfold directivesFor. rewrite filter_cons.
    unfold mergeStorageBar at 1, hasProperty, getProperty.
    destruct (decide (element d = id)) as [Heq|Hne].
    + subst id. fold (directivesFor (element d) l).
      destruct (m !! element d) as [prev|] eqn:Hm.
      * rewrite lookup_insert_eq. reflexivity.
      * destruct (inherited (element d)) eqn:Hin.
        -- rewrite Hm. reflexivity.
        -- rewrite lookup_insert_eq. destruct d as [e t c]. reflexivity.
    + fold (directivesFor id l).
      destruct (m !! element d) as [prev|] eqn:Hm.
      * rewrite lookup_insert_ne by done. reflexivity.
      * destruct (inherited (element d)); [reflexivity|].
        rewrite lookup_insert_ne by done. reflexivity.
Qed.

Lemma mergeStorageBars_lookup l id :
  mergeStorageBars (Some l) !! id
  = if inherited id then None
    else
      match directivesFor id l with
      | [] => None
      | d :: ds => Some {| element := element d; type := type d;
                           change := sumFrom (change d) (change <$> ds) |}
      end.
Proof. unfold mergeStorageBars. rewrite mergeStorageBar_fold, lookup_empty. reflexivity. Qed.

(** C5. The merge at an element id that names an inherited member.  For
    two directives [{element: "valueOf", change: 5}] and
    [{element: "valueOf", change: -2}] the merged object has no entry for
    the element, and the bar of that element is drawn as if there were no
    directive, with the default type; the same two directives under an
    ordinary id give one entry with change 3.  No id that names an
    inherited member ever gets an entry.  Progress values are merged by
    id, the later object winning, and the value of an id is what is read
    for it. *)
Theorem merge_drops_inherited_element (t : string) :
  let named id :=
    [ {| element := id; type := t; change := 5 |};
      {| element := id; type := t; change := -2 |} ] in
  mergeStorageBars (Some (named "valueOf")) !! "valueOf" = None
  /\ (forall loc init pis startIndex,
        renderElement loc init (mergeStorageBars (Some (named "valueOf"))) pis
          "valueOf" (storageBar startIndex)
        = handleBarItems loc startIndex "_disabled" 0)
  /\ mergeStorageBars (Some (named "energy")) !! "energy"
     = Some {| element := "energy"; type := t; change := 3 |}
  /\ (forall loc init pis startIndex,
        renderElement loc init (mergeStorageBars (Some (named "energy"))) pis
          "energy" (storageBar startIndex)
        = handleBarItems loc startIndex t 3)
  /\ (forall l id, inherited id = true -> mergeStorageBars (Some l) !! id = None)
  /\ (forall (earlier later : gmap string Q) id v,
        later !! id = Some v -> getProperty (spread earlier later) id = own v)
  /\ (forall (earlier later : gmap string Q) id,
        later !! id = None -> spread earlier later !! id = earlier !! id)
  /\ (forall (p : gmap string Q) id, mergeProgressIndicators (Some p) !! id = p !! id).
Proof.
  intros named.
  assert (Hdropped : mergeStorageBars (Some (named "valueOf")) !! "valueOf" = None).
  { rewrite mergeStorageBars_lookup. reflexivity. }
  assert (Hkept : mergeStorageBars (Some (named "energy")) !! "energy"
                  = Some {| element := "energy"; type := t; change := 3 |}).
  { rewrite mergeStorageBars_lookup. reflexivity. }
  split; [exact Hdropped|].
  split; [|split; [exact Hkept|split; [|split; [|split; [|split]]]]].
  - intros loc init pis startIndex. cbn [renderElement].
    unfold getProperty. rewrite Hdropped. reflexivity.
  - intros loc init pis startIndex. cbn [renderElement].
    rewrite (getProperty_own _ _ _ Hkept). reflexivity.
  - intros l id Hid. rewrite mergeStorageBars_lookup, Hid. reflexivity.
  - intros earlier later id v Hv. apply getProperty_own. unfold spread.
    apply lookup_union_Some_l. exact Hv.
  - intros earlier later id Hnone. unfold spread.
    apply lookup_union_r. exact Hnone.
  - intros p id. unfold mergeProgressIndicators, spread.
    rewrite (right_id_L ∅ (∪)). reflexivity.
Qed.

End PassFacts.

(** * Further properties of [ui.ts] *)

(** ** Cleaning the player, continued *)

Section PlayerMore.
Context `{G : Game}.

Lemma holdsUiItem_keepForeign o : holdsUiItem (keepForeign o) = false.
Proof.
  destruct o as [it|]; [|reflexivity]. cbn.
  destruct (isUiItem it) eqn:Hui; cbn; [reflexivity | exact Hui].
Qed.

Lemma keepForeign_keepForeign o : keepForeign (keepForeign o) = keepForeign o.
Proof.
  destruct o as [it|]; [|reflexivity]. cbn.
  destruct (isUiItem it) eqn:Hui; cbn; [reflexivity | rewrite Hui; reflexivity].
Qed.

Lemma clearSlotEffects_nil l : forall i,
  clearSlotEffects i l = [] <-> existsb holdsUiItem l = false.
Proof.
  induction l as [|o l IH]; intros i; cbn [clearSlotEffects existsb]; [tauto|].
  destruct (holdsUiItem o); cbn [orb app]; [split; discriminate | apply IH].
Qed.

Lemma clearEffects_nil w : clearEffects w = [] <-> anythingToClear w = false.
Proof.
  unfold clearEffects, anythingToClear.
  destruct (holdsUiItem (player_cursor w)); cbn [orb app];
    [split; discriminate | apply clearSlotEffects_nil].
Qed.

Lemma anythingToClear_cleanedPlayer w : anythingToClear (cleanedPlayer w) = false.
Proof.
  unfold anythingToClear, cleanedPlayer; cbn [with_player player_cursor player_inventory].
  rewrite holdsUiItem_keepForeign. cbn [orb].
  induction (player_inventory w) as [|o l IH]; [reflexivity|].
  cbn [fmap list_fmap existsb]. rewrite holdsUiItem_keepForeign. exact IH.
Qed.

Lemma cleanedPlayer_cleanedPlayer w : cleanedPlayer (cleanedPlayer w) = cleanedPlayer w.
Proof.
  unfold cleanedPlayer; cbn [with_player player_cursor player_inventory
    entity_isValid inventory slotItems machineStorage storageTypeRegistry
    machineChangedItemSlots].
  rewrite keepForeign_keepForeign.
  assert (keepForeign <$> (keepForeign <$> player_inventory w)
          = keepForeign <$> player_inventory w) as ->; [|reflexivity].
  induction (player_inventory w) as [|o l IH]; [reflexivity|].
  cbn [fmap list_fmap]. rewrite keepForeign_keepForeign. f_equal. exact IH.
Qed.

(** X1. [clearUiItemsFromPlayer] always returns; afterwards neither the
    cursor nor any inventory slot of the player holds a UI item, every
    other stack is where it was, and the inventory has its size.  The
    answer is [true] exactly when the call cleared something.  The
    container, the ledger and the Dirty-Slot Set are not touched and
    nothing is spawned. *)
Theorem clearUiItemsFromPlayer_postcondition w :
  let r := clearUiItemsFromPlayer w in
  (exists cleared, outcome_of r = Ok cleared
                   /\ (cleared = true <-> effects_of r <> []))
  /\ holdsUiItem (player_cursor (world_of r)) = false
  /\ (forall i o, player_inventory (world_of r) !! i = Some o -> holdsUiItem o = false)
  /\ (forall it, player_cursor w = Some it -> isUiItem it = false ->
        player_cursor (world_of r) = Some it)
  /\ (forall i it, player_inventory w !! i = Some (Some it) -> isUiItem it = false ->
        player_inventory (world_of r) !! i = Some (Some it))
  /\ length (player_inventory (world_of r)) = length (player_inventory w)
  /\ inventory (world_of r) = inventory w
  /\ slotItems (world_of r) = slotItems w
  /\ bookkeepingKept w (world_of r)
  /\ spawned (effects_of r) = [].
Proof.
  intros r. subst r. rewrite clearUiItemsFromPlayer_run.
  rewrite outcome_of_run, world_of_run, effects_of_run.
  split; [|split; [|split; [|split; [|split; [|split]]]]].
  - exists (anythingToClear w). split; [reflexivity|].
    rewrite clearEffects_nil. destruct (anythingToClear w); split; congruence.
  - apply holdsUiItem_keepForeign.
  - intros i o Ho. cbn in Ho. rewrite list_lookup_fmap in Ho.
    destruct (player_inventory w !! i) as [o'|]; [|discriminate].
    injection Ho as <-. apply holdsUiItem_keepForeign.
  - intros it Hc Hui. cbn. rewrite Hc. cbn. rewrite Hui. reflexivity.
  - intros i it Hi Hui. cbn. rewrite list_lookup_fmap, Hi. cbn.
    rewrite Hui. reflexivity.
  - cbn. apply length_fmap.
  - repeat split. apply spawned_clearEffects.
Qed.

(** X2. Cleaning is idempotent: a second [clearUiItemsFromPlayer] right
    after the first answers [false], performs no effect and leaves the
    world as the first one left it. *)
Theorem clearUiItemsFromPlayer_twice w :
  clearUiItemsFromPlayer (world_of (clearUiItemsFromPlayer w))
  = (Ok false, world_of (clearUiItemsFromPlayer w), []).
Proof.
  rewrite (clearUiItemsFromPlayer_run w), world_of_run.
  rewrite clearUiItemsFromPlayer_run.
  rewrite anythingToClear_cleanedPlayer, cleanedPlayer_cleanedPlayer.
  assert (clearEffects (cleanedPlayer w) = []) as ->.
  { apply clearEffects_nil, anythingToClear_cleanedPlayer. }
  reflexivity.
Qed.

End PlayerMore.

(** ** Storage bars, continued *)

Section BarsMore.
Context `{G : Game}.

Lemma scanWorld_kept s w :
  inventory (scanWorld s w) = inventory w
  /\ slotItems (scanWorld s w) = slotItems w
  /\ bookkeepingKept w (scanWorld s w).
Proof.
  unfold scanWorld, bookkeepingKept.
  destruct (scanStop s (inventory w)); repeat split; reflexivity.
Qed.

Lemma scanEffects_no_write s w e :
  e ∈ scanEffects s w -> is_ledger_write e = false /\ is_slot_write e = false.
Proof.
  unfold scanEffects, foreignOccupant.
  destruct (scanStop s (inventory w)) as [i|]; [|intros He; inversion He].
  intros He. apply elem_of_app in He as [He|He].
  - apply clearEffects_player_only in He. destruct e; try discriminate; auto.
  - destruct (inventory w !! i); [|inversion He].
    apply list_elem_of_singleton in He. subst. auto.
Qed.

(** X3. The bar fills from the top: for a stored amount that is not
    negative, a slot shows segments only when every slot above it is full
    (16), from 6400 on all four slots are full, and below 100 all four are
    empty.  What a slot shows is the identifier of the item written to it,
    the base identifier followed by the count in decimal; different counts
    give different identifiers. *)
Theorem fillUiBar_fills_from_the_top base code nm (a s : Z) (ch : float) (w : World) :
  0 <= a ->
  exists n0 n1 n2 n3 : Z,
    let shows (n : Z) : ItemStack :=
      {| typeId := base +:+ Z_toString n; amount := 1;
         nameTag := Some (barLabel code nm a ch); props := [] |} in
    effects_of (fillUiBar base code nm a s ch w) =
      [ SetItem (s + 3) (barSegmentItem base code nm a ch n3);
        SetItem (s + 2) (barSegmentItem base code nm a ch n2);
        SetItem (s + 1) (barSegmentItem base code nm a ch n1);
        SetItem s (barSegmentItem base code nm a ch n0) ]
    /\ (0 < n2 -> n3 = 16) /\ (0 < n1 -> n2 = 16) /\ (0 < n0 -> n1 = 16)
    /\ (6400 <= a -> n0 = 16 /\ n1 = 16 /\ n2 = 16 /\ n3 = 16)
    /\ (a < 100 -> n0 = 0 /\ n1 = 0 /\ n2 = 0 /\ n3 = 0)
    /\ effects_of (fillUiBar base code nm a s ch w) =
       [ SetItem (s + 3) (shows n3); SetItem (s + 2) (shows n2);
         SetItem (s + 1) (shows n1); SetItem s (shows n0) ]
    /\ (forall m n : Z, typeId (shows m) = typeId (shows n) -> m = n)
    /\ n0 + n1 + n2 + n3 = Z.min 64 (a / 100).
Proof.
  intros Ha. exists (seg0 a), (seg1 a), (seg2 a), (seg3 a).
  cbv zeta. rewrite fillUiBar_run, effects_of_run. split; [reflexivity|].
  assert (0 <= a / 100) as Hq by (apply Z.div_pos; lia).
  assert (6400 <= a -> 64 <= a / 100) as Hbig.
  { intros Hb. apply Z.div_le_lower_bound; lia. }
  assert (a < 100 -> a / 100 = 0) as Hsmall.
  { intros Hs. apply Z.div_small. lia. }
  unfold seg0, seg1, seg2, seg3.
  repeat split; intros; try lia; try reflexivity.
  cbn [typeId] in *. eapply segment_id_inj. eassumption.
Qed.

(** X4. A storage-bar call writes only the four slots of its bar: every
    other container slot, the logical item slots and the bookkeeping are as
    before, and no effect of the call is a ledger write. *)
Theorem handleBarItems_frame location s type change w :
  let r := handleBarItems location s type change w in
  containerKeptOutside s (s + 3) w (world_of r)
  /\ slotItems (world_of r) = slotItems w
  /\ bookkeepingKept w (world_of r)
  /\ (forall e, e ∈ effects_of r -> is_ledger_write e = false)
  /\ (forall i item, SetItem i item ∈ effects_of r -> s <= i <= s + 3).
Proof.
  intros r. subst r. rewrite handleBarItems_run.
  destruct (scanWorld_kept s w) as (Hinv & Hslots & Hbook).
  unfold fillOf.
  destruct (String.eqb type "_disabled").
  - rewrite fillDisabledUiBar_run.
    rewrite !outcome_of_run, !world_of_run, !effects_of_run.
    split; [|split; [|split; [|split]]].
    + intros i Hi. cbn [with_inventory inventory].
      rewrite !lookup_insert_ne by lia. rewrite Hinv. reflexivity.
    + exact Hslots.
    + exact Hbook.
    + intros e He. apply elem_of_app in He as [He|He].
      * apply (scanEffects_no_write s w e He).
      * repeat (apply elem_of_cons in He as [-> | He]; [reflexivity|]).
        inversion He.
    + intros i item He. apply elem_of_app in He as [He|He].
      * apply scanEffects_no_write in He as [_ He]. discriminate.
      * repeat (apply elem_of_cons in He as [Heq | He];
                [injection Heq as -> _; lia|]).
        inversion He.
  - destruct (storageTypeRegistry w !! type) as [o|].
    + rewrite fillUiBar_run.
      rewrite !outcome_of_run, !world_of_run, !effects_of_run.
      split; [|split; [|split; [|split]]].
      * intros i Hi. cbn [with_inventory inventory].
        rewrite !lookup_insert_ne by lia. rewrite Hinv. reflexivity.
      * exact Hslots.
      * exact Hbook.
      * intros e He. apply elem_of_app in He as [He|He].
        -- apply (scanEffects_no_write s w e He).
        -- repeat (apply elem_of_cons in He as [-> | He]; [reflexivity|]).
           inversion He.
      * intros i item He. apply elem_of_app in He as [He|He].
        -- apply scanEffects_no_write in He as [_ He]. discriminate.
        -- repeat (apply elem_of_cons in He as [Heq | He];
                   [injection Heq as -> _; lia|]).
           inversion He.
    + rewrite !world_of_run, !effects_of_run.
      split; [|split; [|split; [|split]]].
      * intros i _. rewrite Hinv. reflexivity.
      * exact Hslots.
      * exact Hbook.
      * intros e He. apply (scanEffects_no_write s w e He).
      * intros i item He. apply scanEffects_no_write in He as [_ He]. discriminate.
Qed.

(** X5. A bar whose storage type is neither ["_disabled"] nor registered
    makes the call throw, but only after the scan: the player has been
    cleaned and the foreign occupant spawned, while no slot of the
    container has been written. *)
Theorem handleBarItems_unknown_type location s type change w :
  type <> "_disabled" ->
  storageTypeRegistry w !! type = None ->
  let r := handleBarItems location s type change w in
  outcome_of r = Throw (UnknownStorageType type)
  /\ inventory (world_of r) = inventory w
  /\ spawned (effects_of r) = foreignOccupant s (inventory w)
  /\ effects_of r = scanEffects s w
  /\ world_of r = scanWorld s w.
Proof.
  intros Htype Hreg r. subst r. rewrite handleBarItems_run. unfold fillOf.
  apply String.eqb_neq in Htype. rewrite Htype, Hreg.
  rewrite outcome_of_run, world_of_run, effects_of_run.
  destruct (scanWorld_kept s w) as (Hinv & _ & _).
  repeat split; auto. apply spawned_scanEffects.
Qed.

(** X6. A ["_disabled"] bar never throws and never looks at the registry,
    the stored amount, the location or the change: the four slots all end
    up with the same "Disabled" item. *)
Theorem handleBarItems_disabled location s change w :
  let r := handleBarItems location s "_disabled" change w in
  outcome_of r = Ok tt
  /\ (forall k, 0 <= k <= 3 -> inventory (world_of r) !! (s + k) = Some disabledBarItem)
  /\ (forall location' change' w',
        inventory w' = inventory w ->
        player_cursor w' = player_cursor w ->
        player_inventory w' = player_inventory w ->
        effects_of (handleBarItems location' s "_disabled" change' w') = effects_of r
        /\ inventory (world_of (handleBarItems location' s "_disabled" change' w'))
           = inventory (world_of r)).
Proof.
  intros r. subst r. rewrite handleBarItems_run. unfold fillOf. cbn [String.eqb Ascii.eqb Bool.eqb].
  rewrite fillDisabledUiBar_run, !outcome_of_run, !world_of_run, !effects_of_run.
  destruct (scanWorld_kept s w) as (Hinv & _ & _).
  split; [reflexivity|]. split.
  - intros k Hk. cbn [with_inventory inventory].
    assert (k = 0 \/ k = 1 \/ k = 2 \/ k = 3) as Hcases by lia.
    destruct Hcases as [K | [K | [K | K]]]; subst k; rewrite ?Z.add_0_r.
    all: rewrite ?lookup_insert_ne by lia; apply lookup_insert_eq.
  - intros location' change' w' Hi Hc Hp.
    rewrite handleBarItems_run. unfold fillOf. cbn [String.eqb Ascii.eqb Bool.eqb].
    rewrite fillDisabledUiBar_run, !world_of_run, !effects_of_run.
    destruct (scanWorld_kept s w') as (Hinv' & _ & _).
    assert (scanEffects s w' = scanEffects s w) as ->.
    { unfold scanEffects, clearEffects. rewrite Hi, Hc, Hp. reflexivity. }
    split; [reflexivity|].
    cbn [with_inventory inventory]. rewrite Hinv, Hinv', Hi. reflexivity.
Qed.

(** X7. A bar of a registered storage type never throws: it shows the
    stored amount of the block in segments of the type's colour, each slot
    labelled with the amount and the type's name; a block without a stored
    amount reads as 0 and shows four empty segments. *)
Theorem handleBarItems_registered location s type change w o :
  type <> "_disabled" ->
  storageTypeRegistry w !! type = Some o ->
  let a := default 0 (machineStorage w !! (getBlockUniqueId location, type)) in
  let item n :=
    barSegmentItem (SEGMENT_ITEM_PREFIX +:+ color_toString (color o))
      (STORAGE_TYPE_COLOR_TO_FORMATTING_CODE (color o)) (name o) a change n in
  let r := handleBarItems location s type change w in
  outcome_of r = Ok tt
  /\ inventory (world_of r) !! (s + 3) = Some (item (seg3 a))
  /\ inventory (world_of r) !! (s + 2) = Some (item (seg2 a))
  /\ inventory (world_of r) !! (s + 1) = Some (item (seg1 a))
  /\ inventory (world_of r) !! s = Some (item (seg0 a))
  /\ (machineStorage w !! (getBlockUniqueId location, type) = None ->
      a = 0 /\ seg0 a = 0 /\ seg1 a = 0 /\ seg2 a = 0 /\ seg3 a = 0).
Proof.
  intros Htype Hreg a item r. subst r. rewrite handleBarItems_run. unfold fillOf.
  apply String.eqb_neq in Htype. rewrite Htype, Hreg.
  fold a. rewrite fillUiBar_run, !outcome_of_run, !world_of_run.
  cbn [with_inventory inventory]. unfold item, SEGMENT_ITEM_PREFIX.
  split; [reflexivity|].
  split; [rewrite !lookup_insert_ne by lia; apply lookup_insert_eq|].
  split; [rewrite !lookup_insert_ne by lia; apply lookup_insert_eq|].
  split; [rewrite !lookup_insert_ne by lia; apply lookup_insert_eq|].
  split; [apply lookup_insert_eq|].
  intros Hnone. subst a. rewrite Hnone. repeat split; reflexivity.
Qed.

End BarsMore.

(** ** Progress indicators, continued *)

Section ProgressMore.
Context `{G : Game}.

Lemma handleProgressIndicator_run index indicator value w :
  handleProgressIndicator index indicator value w =
  if progress_value_rejected indicator value then
    (Throw (BadProgressValue indicator value), w, [])
  else
    let item := progressItem indicator (Qfloor value) in
    match inventory w !! index with
    | Some it =>
        if hasTag it UI_ITEM_TAG then
          (Ok tt, with_inventory (insert index item) w, [SetItem index item])
        else
          (Ok tt, with_inventory (insert index item) (cleanedPlayer w),
           clearEffects w ++ [SpawnItem it; SetItem index item])
    | None =>
        (Ok tt, with_inventory (insert index item) (cleanedPlayer w),
         clearEffects w ++ [SetItem index item])
    end.
Proof.
  unfold handleProgressIndicator.
  destruct (progress_value_rejected indicator value); [reflexivity|].
  unfold bind at 1. unfold bind at 1, getItem at 1, gets at 1.
  destruct (inventory w !! index) as [it|].
  - destruct (hasTag it UI_ITEM_TAG).
    + reflexivity.
    + unfold bind, spawnItem, setItem, perform.
      rewrite clearUiItemsFromPlayer_run. cbn [app].
      rewrite <- app_assoc. reflexivity.
  - unfold bind, ret, setItem, perform.
    rewrite clearUiItemsFromPlayer_run. rewrite app_nil_r. reflexivity.
Qed.

Lemma progress_zero_accepted indicator :
  progress_value_rejected indicator 0%Q = false.
Proof. destruct indicator; reflexivity. Qed.

Lemma spawned_after_clear w es :
  spawned (clearEffects w ++ es) = spawned es.
Proof.
  unfold spawned. rewrite omap_app.
  fold (spawned (clearEffects w)). rewrite spawned_clearEffects. reflexivity.
Qed.

(** X8. A progress value that is a whole number [n] between 0 and the
    maximum of the indicator is rendered: the call returns, the slot holds
    the item named after the indicator and [n], no other container slot and
    nothing of the ledger changes.  The previous occupant is spawned
    exactly when it lacked the UI tag. *)
Theorem handleProgressIndicator_accepts index indicator value (n : Z) w :
  (value == inject_Z n)%Q ->
  0 <= n <= PROGRESS_INDICATOR_MAX_VALUES indicator ->
  let r := handleProgressIndicator index indicator value w in
  outcome_of r = Ok tt
  /\ inventory (world_of r) !! index = Some (progressItem indicator n)
  /\ containerKeptOutside index index w (world_of r)
  /\ slotItems (world_of r) = slotItems w
  /\ bookkeepingKept w (world_of r)
  /\ spawned (effects_of r)
     = match inventory w !! index with
       | Some it => if hasTag it UI_ITEM_TAG then [] else [it]
       | None => []
       end.
Proof.
  intros Hn Hrange r. subst r. rewrite handleProgressIndicator_run.
  assert (progress_value_rejected indicator value = false) as ->.
  { apply progress_value_accepted. exists n. auto. }
  assert (Qfloor value = n) as ->.
  { rewrite Hn. apply Qfloor_Z. }
  cbv zeta.
  destruct (inventory w !! index) as [it|]; [destruct (hasTag it UI_ITEM_TAG)|].
  all: rewrite outcome_of_run, world_of_run, effects_of_run.
  all: split; [reflexivity|].
  all: split; [cbn; apply lookup_insert_eq|].
  all: split; [intros i Hi; cbn; rewrite lookup_insert_ne by lia; reflexivity|].
  all: split; [reflexivity|].
  all: split; [repeat split|].
  all: rewrite ?spawned_after_clear; reflexivity.
Qed.

(** X9. What the bar and progress renderers spawn is never a UI item, so
    the [entitySpawn] handler, which removes dropped UI items, leaves every
    item they eject in the world. *)
Theorem ejected_items_pass_spawn_guard location s type change index indicator value w :
  (forall it, it ∈ spawned (effects_of (handleBarItems location s type change w)) ->
     onEntitySpawn (itemEntity it) = false)
  /\ (forall it,
        it ∈ spawned (effects_of (handleProgressIndicator index indicator value w)) ->
        onEntitySpawn (itemEntity it) = false).
Proof.
  split.
  - intros it Hit. rewrite handleBarItems_run in Hit.
    assert (it ∈ foreignOccupant s (inventory w)) as Hocc.
    { destruct (fillOf location s type change w) as [fill|] eqn:Hfill;
        rewrite effects_of_run in Hit.
      - unfold spawned in Hit. rewrite omap_app in Hit.
        fold (spawned (scanEffects s w)) in Hit. rewrite spawned_scanEffects in Hit.
        apply elem_of_app in Hit as [Hit|Hit]; [exact Hit|].
        exfalso. unfold fillOf in Hfill.
        destruct (String.eqb type "_disabled").
        + injection Hfill as <-. rewrite fillDisabledUiBar_run, effects_of_run in Hit.
          cbn in Hit. inversion Hit.
        + destruct (storageTypeRegistry w !! type); [|discriminate].
          injection Hfill as <-. rewrite fillUiBar_run, effects_of_run in Hit.
          cbn in Hit. inversion Hit.
      - rewrite spawned_scanEffects in Hit. exact Hit. }
    unfold foreignOccupant in Hocc.
    destruct (scanStop s (inventory w)) as [i|] eqn:Hstop; [|inversion Hocc].
    apply find_some in Hstop as [_ Hlacks]. unfold lacksUiTag in Hlacks.
    destruct (inventory w !! i) as [it'|]; [|inversion Hocc].
    apply list_elem_of_singleton in Hocc. subst it'.
    unfold onEntitySpawn, itemEntity, isUiItem. cbn.
    destruct (hasTag it UI_ITEM_TAG); [discriminate | reflexivity].
  - intros it Hit. rewrite handleProgressIndicator_run in Hit.
    destruct (progress_value_rejected indicator value); [inversion Hit|].
    cbv zeta in Hit.
    destruct (inventory w !! index) as [it'|]; [destruct (hasTag it' UI_ITEM_TAG) eqn:Htag|].
    all: rewrite effects_of_run, ?spawned_after_clear in Hit; cbn in Hit.
    all: try solve [inversion Hit].
    apply list_elem_of_singleton in Hit. subst it'.
    unfold onEntitySpawn, itemEntity, isUiItem. cbn. exact Htag.
Qed.

End ProgressMore.

(** ** The item-slot renderer, continued *)

(** Splits a run into the cases of its outermost tests. *)
Ltac run_cases :=
  repeat first
    [ progress cbv zeta
    | match goal with
      | |- context [match ?x with _ => _ end] => destruct x
      end ].

(** Splits the membership of an effect in a list of effects into the
    places where it can stand. *)
Ltac split_mem :=
  repeat match goal with
  | H : _ ∈ clearEffects _ |- _ => apply clearEffects_player_only in H
  | H : _ ∈ scanEffects _ _ |- _ => apply scanEffects_no_write in H as [? ?]
  | H : _ ∈ _ ++ _ |- _ => apply elem_of_app in H as [H|H]
  | H : _ ∈ _ :: _ |- _ => apply elem_of_cons in H as [H|H]
  | H : _ ∈ [] |- _ => apply elem_of_nil in H; destruct H
  end.

Section ItemSlotMore.
Context `{G : Game}.

(** X10. A call that is not forced and finds in the container slot an
    item that stacks with the expected one leaves the container and the
    player alone and spawns nothing.  When the logical slot holds an item
    whose count differs from the visible amount, the count is silently set
    to the visible amount, the kind index staying as it is; in every other
    case the call does nothing at all. *)
Theorem handleItemSlot_compatible loc element w expected item :
  slotChanged loc element w = false ->
  machineItemStackToItemStack element (logicalSlot loc element w) = Some expected ->
  inventory w !! index element = Some item ->
  isStackableWith item expected = true ->
  let r := handleItemSlot loc element false w in
  (forall m, logicalSlot loc element w = Some m -> amount item <> count m ->
     let m' := {| typeIndex := typeIndex m; count := amount item |} in
     r = (Ok tt, ledgerSet loc element (Some m') w, [silentWrite loc element (Some m')]))
  /\ (logicalSlot loc element w = None
      \/ (exists m, logicalSlot loc element w = Some m /\ amount item = count m) ->
      r = (Ok tt, w, []))
  /\ inventory (world_of r) = inventory w
  /\ player_cursor (world_of r) = player_cursor w
  /\ player_inventory (world_of r) = player_inventory w
  /\ spawned (effects_of r) = [].
Proof.
  intros Hclean Hexp Hslot Hstack r. subst r.
  rewrite handleItemSlot_run, Hexp, Hclean, Hslot, Hstack. cbn [orb].
  destruct (logicalSlot loc element w) as [m|] eqn:HL.
  - cbn [machineItemStackToItemStack] in Hexp.
    destruct (allowedItem element (typeIndex m)); [|discriminate].
    injection Hexp as <-. cbn [amount new_ItemStack].
    destruct (Z.eqb_spec (amount item) (count m)) as [Heq|Hne]; cbn [negb].
    + split; [intros m0 Hm0 Hd; injection Hm0 as <-; contradiction|].
      repeat split; reflexivity.
    + split; [intros m0 Hm0 _; injection Hm0 as <-; reflexivity|].
      split; [|repeat split; reflexivity].
      intros [Hn | (m0 & Hm0 & Heq)]; [discriminate|].
      injection Hm0 as <-. contradiction.
  - split; [intros m0 Hm0; discriminate|]. repeat split; reflexivity.
Qed.

Lemma handleItemSlot_bookkeeping loc element init w :
  bookkeepingKept w (world_of (handleItemSlot loc element init w)).
Proof.
  rewrite handleItemSlot_run.
  run_cases; rewrite ?world_of_run; repeat split; reflexivity.
Qed.

(** X11. Whatever the case, an item-slot call writes no container slot but
    its own, no logical slot but its own, and nothing of the bookkeeping;
    in particular it never marks a slot as changed.  All its ledger writes
    are silent, and it spawns one item at most. *)
Theorem handleItemSlot_frame loc element init w :
  let r := handleItemSlot loc element init w in
  containerKeptOutside (index element) (index element) w (world_of r)
  /\ (forall key, key <> (getBlockUniqueId loc, slotId element) ->
        slotItems (world_of r) !! key = slotItems w !! key)
  /\ bookkeepingKept w (world_of r)
  /\ (forall uid slot item setChanged,
        SetMachineSlot uid slot item setChanged ∈ effects_of r ->
        setChanged = false /\ uid = getBlockUniqueId loc /\ slot = slotId element)
  /\ (forall i item, SetItem i item ∈ effects_of r -> i = index element)
  /\ (length (spawned (effects_of r)) <= 1)%nat.
Proof.
  intros r. subst r.
  split; [|split; [|split; [apply handleItemSlot_bookkeeping|]]].
  - rewrite handleItemSlot_run.
    run_cases; rewrite ?world_of_run; intros other Hother; cbn;
      rewrite ?lookup_insert_ne by lia; reflexivity.
  - rewrite handleItemSlot_run.
    run_cases; rewrite ?world_of_run; intros key Hkey; cbn;
      rewrite ?lookup_insert_ne, ?lookup_delete_ne by congruence; reflexivity.
  - rewrite handleItemSlot_run.
    assert (Hclear : forall e, e ∈ clearEffects w ->
              (forall uid slot item c, e <> SetMachineSlot uid slot item c)
              /\ (forall i item, e <> SetItem i item)).
    { intros e He. apply clearEffects_player_only in He.
      split; intros; intros ->; discriminate. }
    run_cases; rewrite ?effects_of_run, ?spawned_after_clear.
    all: split; [|split].
    all: try (cbn; lia).
    all: intros * He.
    all: repeat first
           [ apply elem_of_app in He as [He|He];
             [apply Hclear in He as [Hl Hs];
              first [exfalso; eapply Hl; reflexivity
                    | exfalso; eapply Hs; reflexivity]|]
           | apply elem_of_cons in He as [He|He];
             [first [discriminate He
                    | injection He as -> -> -> ->; auto
                    | injection He as -> ->; auto]|] ].
    all: inversion He.
Qed.

(** X12. After every call that returns, the container slot of the element
    is occupied, and when the logical slot holds an item its count is the
    amount visible in the container slot. *)
Theorem handleItemSlot_counts_agree loc element init w :
  let r := handleItemSlot loc element init w in
  outcome_of r = Ok tt ->
  exists visible,
    inventory (world_of r) !! index element = Some visible
    /\ forall m, logicalSlot loc element (world_of r) = Some m ->
         count m = amount visible.
Proof.
  intros r. subst r. rewrite handleItemSlot_run.
  destruct (machineItemStackToItemStack element (logicalSlot loc element w))
    as [expected|] eqn:Hexp; [|discriminate].
  assert (Hexpected : forall m, logicalSlot loc element w = Some m ->
            count m = amount expected).
  { intros m Hm. rewrite Hm in Hexp. cbn [machineItemStackToItemStack] in Hexp.
    destruct (allowedItem element (typeIndex m)); [|discriminate].
    injection Hexp as <-. reflexivity. }
  pose proof (lookup_insert_eq (inventory w) (index element)) as Hwritten.
  pose proof (lookup_insert_eq (slotItems w) (getBlockUniqueId loc, slotId element))
    as Hset.
  pose proof (lookup_delete_eq (slotItems w) (getBlockUniqueId loc, slotId element))
    as Hdel.
  destruct (slotChanged loc element w || init).
  { rewrite outcome_of_run, world_of_run. intros _. exists expected.
    split; [apply Hwritten | exact Hexpected]. }
  destruct (inventory w !! index element) as [item|] eqn:Hslot.
  - destruct (isStackableWith item expected).
    + destruct (logicalSlot loc element w) as [m|] eqn:HL.
      * destruct (Z.eqb_spec (amount item) (amount expected)) as [Heq|Hne]; cbn [negb].
        -- rewrite outcome_of_run, world_of_run. intros _. exists item.
           split; [exact Hslot|]. intros m0 Hm0. rewrite HL in Hm0.
           injection Hm0 as <-. rewrite Heq. apply Hexpected. reflexivity.
        -- cbv zeta. rewrite outcome_of_run, world_of_run. intros _. exists item.
           split; [exact Hslot|]. unfold logicalSlot, ledgerSet. cbn.
           rewrite Hset. intros m0 Hm0. injection Hm0 as <-. reflexivity.
      * rewrite outcome_of_run, world_of_run. intros _. exists item.
        split; [exact Hslot|]. rewrite HL. discriminate.
    + cbv zeta. destruct (_ || _).
      * rewrite outcome_of_run, world_of_run. intros _. exists emptySlotItem.
        split; [cbn; apply lookup_insert_eq|].
        unfold logicalSlot, ledgerSet. cbn. rewrite Hdel. discriminate.
      * rewrite outcome_of_run, world_of_run. intros _. exists item.
        split; [exact Hslot|]. unfold logicalSlot, ledgerSet. cbn.
        rewrite Hset. intros m0 Hm0. injection Hm0 as <-. reflexivity.
  - rewrite outcome_of_run, world_of_run. intros _. exists emptySlotItem.
    split; [cbn; apply lookup_insert_eq|].
    unfold logicalSlot, ledgerSet. cbn. rewrite Hdel. discriminate.
Qed.

End ItemSlotMore.

(** ** The pass, continued *)

Section PassMore.
Context `{G : Game}.

Lemma bookkeepingKept_refl w : bookkeepingKept w w.
Proof. repeat split. Qed.

Lemma bookkeepingKept_trans w1 w2 w3 :
  bookkeepingKept w1 w2 -> bookkeepingKept w2 w3 -> bookkeepingKept w1 w3.
Proof.
  intros (A1 & A2 & A3 & A4) (B1 & B2 & B3 & B4).
  repeat split; congruence.
Qed.

Lemma handleBarItems_bookkeeping location s type change w :
  bookkeepingKept w (world_of (handleBarItems location s type change w)).
Proof.
  rewrite handleBarItems_run. destruct (scanWorld_kept s w) as (_ & _ & Hbook).
  unfold fillOf. destruct (String.eqb type "_disabled").
  - rewrite fillDisabledUiBar_run, !world_of_run. exact Hbook.
  - destruct (storageTypeRegistry w !! type).
    + rewrite fillUiBar_run, !world_of_run. exact Hbook.
    + rewrite world_of_run. exact Hbook.
Qed.

Lemma handleProgressIndicator_bookkeeping index indicator value w :
  bookkeepingKept w (world_of (handleProgressIndicator index indicator value w)).
Proof.
  rewrite handleProgressIndicator_run.
  run_cases; rewrite world_of_run; repeat split; reflexivity.
Qed.

Lemma renderElement_bookkeeping loc init sbc pis id options w :
  bookkeepingKept w (world_of (renderElement loc init sbc pis id options w)).
Proof.
  destruct options as [s|o|k i]; cbn [renderElement].
  - destruct (getProperty sbc id); apply handleBarItems_bookkeeping.
  - apply handleItemSlot_bookkeeping.
  - destruct (getProperty pis id); try apply handleProgressIndicator_bookkeeping.
    apply bookkeepingKept_refl.
Qed.

Lemma renderElements_bookkeeping loc init sbc pis elements : forall w,
  bookkeepingKept w (world_of (renderElements loc init sbc pis elements w)).
Proof.
  induction elements as [|[id options] rest IH]; intros w.
  - apply bookkeepingKept_refl.
  - cbn [renderElements]. unfold bind.
    pose proof (renderElement_bookkeeping loc init sbc pis id options w) as Hhead.
    destruct (renderElement loc init sbc pis id options w) as [[[[]|err] w1] e1].
    + rewrite world_of_run in Hhead. specialize (IH w1).
      destruct (renderElements loc init sbc pis rest w1) as [[r w2] e2].
      rewrite world_of_run in *. eapply bookkeepingKept_trans; eauto.
    + exact Hhead.
Qed.

Lemma updateEntityUi_invalid_entity_run definition entity init result elements w :
  uiElements definition = Some elements ->
  falsy (updateUiEvent definition) = false ->
  entity_isValid w = false ->
  updateEntityUi definition entity init result w = (Ok tt, w, []).
Proof.
  intros Hels Hhandler Hinvalid.
  unfold updateEntityUi. rewrite Hels, Hhandler.
  unfold bind, gets. rewrite Hinvalid. reflexivity.
Qed.



(** X14. No pass changes the stored amounts, the storage type registry or
    the validity of the entity, and a pass that does not complete (it
    throws, or it finds the entity invalid) leaves the Dirty-Slot Set
    exactly as it was. *)
Theorem updateEntityUi_keeps_bookkeeping definition entity init result w :
  let r := updateEntityUi definition entity init result w in
  machineStorage (world_of r) = machineStorage w
  /\ storageTypeRegistry (world_of r) = storageTypeRegistry w
  /\ entity_isValid (world_of r) = entity_isValid w
  /\ ((exists err, outcome_of r = Throw err) \/ entity_isValid w = false ->
      machineChangedItemSlots (world_of r) = machineChangedItemSlots w).
Proof.
  intros r. subst r.
  destruct (uiElements definition) as [elements|] eqn:Hels.
  2:{ unfold updateEntityUi. rewrite Hels. repeat split. }
  destruct (falsy (updateUiEvent definition)) eqn:Hhandler.
  { unfold updateEntityUi. rewrite Hels, Hhandler. repeat split. }
  destruct (entity_isValid w) eqn:Hvalid.
  2:{ rewrite (updateEntityUi_invalid_entity_run _ _ _ _ elements) by assumption.
      rewrite world_of_run. auto. }
  rewrite (updateEntityUi_run _ _ _ _ elements) by assumption.
  pose proof (renderElements_bookkeeping (blockLocation entity) init
                (mergeStorageBars (storageBars result))
                (mergeProgressIndicators (progressIndicators result)) elements w)
    as (H1 & H2 & H3 & H4).
  destruct (renderElements _ _ _ _ elements w) as [[[[]|err'] w1] e1].
  - rewrite world_of_run in H1, H2, H3, H4. rewrite world_of_run, outcome_of_run.
    cbn [with_changedSlots machineStorage storageTypeRegistry entity_isValid].
    split; [exact H1|]. split; [exact H2|]. split; [congruence|].
    intros [[err Herr] | Hinv]; discriminate.
  - rewrite world_of_run in H1, H2, H3, H4. rewrite world_of_run.
    split; [exact H1|]. split; [exact H2|]. split; [congruence|].
    intros _. exact H4.
Qed.




(** The effects of a bar drawn with the default type. *)
Lemma default_bar_effects loc s w :
  let r := handleBarItems loc s "_disabled" 0 w in
  outcome_of r = Ok tt
  /\ (forall k, 0 <= k <= 3 -> SetItem (s + k) disabledBarItem ∈ effects_of r)
  /\ (forall j item, SetItem j item ∈ effects_of r ->
        item = disabledBarItem /\ exists k, 0 <= k <= 3 /\ j = s + k)
  /\ (forall e, e ∈ effects_of r -> is_ledger_write e = false).
Proof.
  cbv zeta. rewrite handleBarItems_run. unfold fillOf.
  cbn [String.eqb Ascii.eqb Bool.eqb].
  rewrite fillDisabledUiBar_run, ?outcome_of_run, ?world_of_run, ?effects_of_run.
  split; [reflexivity|]. split; [|split].
  - intros k Hk. apply elem_of_app. right.
    assert (k = 0 \/ k = 1 \/ k = 2 \/ k = 3) as Hcases by lia.
    destruct Hcases as [K | [K | [K | K]]]; subst k; rewrite ?Z.add_0_r.
    all: solve [repeat constructor].
  - intros j item Hin. split_mem; try discriminate.
    all: injection Hin as -> ->; split; [reflexivity|].
    + exists 0. lia.
    + exists 1. lia.
    + exists 2. lia.
    + exists 3. lia.
  - intros e Hin. split_mem; try assumption; subst e; reflexivity.
Qed.

(** The effects of a progress indicator drawn at 0. *)
Lemma zero_progress_effects i k w :
  let r := handleProgressIndicator i k 0%Q w in
  outcome_of r = Ok tt
  /\ SetItem i (progressItem k 0) ∈ effects_of r
  /\ (forall j item, SetItem j item ∈ effects_of r ->
        j = i /\ item = progressItem k 0)
  /\ (forall e, e ∈ effects_of r -> is_ledger_write e = false).
Proof.
  cbv zeta. rewrite handleProgressIndicator_run, progress_zero_accepted. cbv zeta.
  change (Qfloor 0) with 0.
  destruct (inventory w !! i) as [it|]; [destruct (hasTag it UI_ITEM_TAG)|].
  all: rewrite outcome_of_run, effects_of_run.
  all: split; [reflexivity|]; split; [|split].
  all: try (intros j item Hin; split_mem; try discriminate;
            injection Hin as -> ->; split; reflexivity).
  all: try (intros e Hin; split_mem;
            try (destruct e; try discriminate; reflexivity);
            subst e; reflexivity).
  - left.
  - apply elem_of_app. right. right. left.
  - apply elem_of_app. right. left.
Qed.

(** X17. Rendering with defaults never throws: for a machine without item
    slots, none of whose progress indicators has an id that names an
    inherited member, and whose handler answered with an empty response,
    every bar is drawn disabled, every progress indicator at 0, and the
    pass completes.  Nothing else is written to the container, and the
    ledger is not written at all. *)
Theorem updateEntityUi_empty_response definition entity init elements w :
  uiElements definition = Some elements ->
  falsy (updateUiEvent definition) = false ->
  (forall id o, (id, itemSlot o) ∉ elements) ->
  (forall id k i, (id, progressIndicator k i) ∈ elements -> inherited id = false) ->
  let r := updateEntityUi definition entity init
             {| storageBars := None; progressIndicators := None |} w in
  outcome_of r = Ok tt
  /\ (forall id s k, (id, storageBar s) ∈ elements -> 0 <= k <= 3 ->
        entity_isValid w = true ->
        SetItem (s + k) disabledBarItem ∈ effects_of r)
  /\ (forall id k i, (id, progressIndicator k i) ∈ elements ->
        entity_isValid w = true ->
        SetItem i (progressItem k 0) ∈ effects_of r)
  /\ (forall j item, SetItem j item ∈ effects_of r ->
        (item = disabledBarItem
         /\ exists id s k, (id, storageBar s) ∈ elements /\ 0 <= k <= 3 /\ j = s + k)
        \/ exists id k, (id, progressIndicator k j) ∈ elements
                        /\ item = progressItem k 0)
  /\ (forall e, e ∈ effects_of r -> is_ledger_write e = false).
Proof.
  intros Hels Hhandler Hnoslots Hplain r. subst r.
  destruct (entity_isValid w) eqn:Hvalid.
  2:{ rewrite (updateEntityUi_invalid_entity_run _ _ _ _ elements) by assumption.
      rewrite outcome_of_run, effects_of_run.
      split; [reflexivity|]. split; [discriminate|]. split; [discriminate|].
      split; intros * Hin; inversion Hin. }
  rewrite (updateEntityUi_run _ _ _ _ elements) by assumption.
  cbn [storageBars progressIndicators mergeStorageBars mergeProgressIndicators].
  clear Hels Hvalid.
  set (run := renderElements (blockLocation entity) init ∅ ∅).
  assert (Hloop : forall w0,
    outcome_of (run elements w0) = Ok tt
    /\ (forall id s k, (id, storageBar s) ∈ elements -> 0 <= k <= 3 ->
          SetItem (s + k) disabledBarItem ∈ effects_of (run elements w0))
    /\ (forall id k i, (id, progressIndicator k i) ∈ elements ->
          SetItem i (progressItem k 0) ∈ effects_of (run elements w0))
    /\ (forall j item, SetItem j item ∈ effects_of (run elements w0) ->
          (item = disabledBarItem
           /\ exists id s k, (id, storageBar s) ∈ elements /\ 0 <= k <= 3 /\ j = s + k)
          \/ exists id k, (id, progressIndicator k j) ∈ elements
                          /\ item = progressItem k 0)
    /\ (forall e, e ∈ effects_of (run elements w0) -> is_ledger_write e = false)).
  { subst run. induction elements as [|[id options] rest IH]; intros w0.
    - split; [reflexivity|]. repeat split; intros * Hin; inversion Hin.
    - assert (Hrest : forall id o, (id, itemSlot o) ∉ rest).
      { intros id' o Hin. apply (Hnoslots id' o). right. exact Hin. }
      assert (Hplain' : forall id k i,
                (id, progressIndicator k i) ∈ rest -> inherited id = false).
      { intros id' k i Hin. apply (Hplain id' k i). right. exact Hin. }
      specialize (IH Hrest Hplain'). cbn [renderElements]. unfold bind.
      assert (Hhead : exists w1 e1,
        renderElement (blockLocation entity) init ∅ ∅ id options w0 = (Ok tt, w1, e1)
        /\ (forall s k, options = storageBar s -> 0 <= k <= 3 ->
              SetItem (s + k) disabledBarItem ∈ e1)
        /\ (forall k i, options = progressIndicator k i ->
              SetItem i (progressItem k 0) ∈ e1)
        /\ (forall j item, SetItem j item ∈ e1 ->
              (item = disabledBarItem
               /\ exists s k, options = storageBar s /\ 0 <= k <= 3 /\ j = s + k)
              \/ exists k, options = progressIndicator k j
                           /\ item = progressItem k 0)
        /\ (forall e, e ∈ e1 -> is_ledger_write e = false)).
      { destruct options as [s|o|k i].
        - assert (Hbar : renderElement (blockLocation entity) init ∅ ∅ id (storageBar s)
                         = handleBarItems (blockLocation entity) s "_disabled" 0).
          { cbn [renderElement]. unfold getProperty. rewrite lookup_empty.
            destruct (inherited id); reflexivity. }
          rewrite Hbar.
          destruct (default_bar_effects (blockLocation entity) s w0)
            as (Hok & Hdrawn & Hwrites & Hledger).
          destruct (handleBarItems (blockLocation entity) s "_disabled" 0 w0)
            as [[r1 w1] e1].
          rewrite outcome_of_run in Hok. rewrite effects_of_run in *. subst r1.
          exists w1, e1. split; [reflexivity|]. split; [|split; [|split]].
          + intros s' k' [= <-] Hk. auto.
          + intros k' i' Hopt. discriminate.
          + intros j item Hin. left.
            destruct (Hwrites j item Hin) as (-> & k' & Hk & ->).
            split; [reflexivity|]. exists s, k'. auto.
          + exact Hledger.
        - exfalso. apply (Hnoslots id o). left.
        - assert (Hind : renderElement (blockLocation entity) init ∅ ∅ id
                           (progressIndicator k i)
                         = handleProgressIndicator i k 0%Q).
          { cbn [renderElement]. unfold getProperty. rewrite lookup_empty.
            rewrite (Hplain id k i) by left. reflexivity. }
          rewrite Hind.
          destruct (zero_progress_effects i k w0) as (Hok & Hdrawn & Hwrites & Hledger).
          destruct (handleProgressIndicator i k 0%Q w0) as [[r1 w1] e1].
          rewrite outcome_of_run in Hok. rewrite effects_of_run in *. subst r1.
          exists w1, e1. split; [reflexivity|]. split; [|split; [|split]].
          + intros s' k' Hopt. discriminate.
          + intros k' i' [= <- <-]. exact Hdrawn.
          + intros j item Hin. right.
            destruct (Hwrites j item Hin) as (-> & ->). exists k. auto.
          + exact Hledger. }
      destruct Hhead as (w1 & e1 & -> & Hbar1 & Hprog1 & Hwrites1 & Hledger1).
      destruct (IH w1) as (Hok & Hbars & Hprogs & Hwrites & Hledger).
      destruct (renderElements _ _ _ _ rest w1) as [[r2 w2] e2].
      rewrite outcome_of_run in *. rewrite effects_of_run in *.
      split; [exact Hok|]. split; [|split; [|split]].
      + intros id' s' k' Hin Hk. apply elem_of_app.
        apply elem_of_cons in Hin as [Heq|Hin]; [left|right; eauto].
        injection Heq as _ <-. apply Hbar1; auto.
      + intros id' k' i' Hin. apply elem_of_app.
        apply elem_of_cons in Hin as [Heq|Hin]; [left|right; eauto].
        injection Heq as _ <-. apply Hprog1; auto.
      + intros j item Hin. apply elem_of_app in Hin as [Hin|Hin].
        * destruct (Hwrites1 j item Hin) as [(-> & s & k & -> & Hk & ->)|(k & -> & ->)].
          -- left. split; [reflexivity|]. exists id, s, k. split; [left|auto].
          -- right. exists id, k. split; [left|reflexivity].
        * destruct (Hwrites j item Hin)
            as [(-> & id' & s & k & Hel & Hk & ->)|(id' & k & Hel & ->)].
          -- left. split; [reflexivity|]. exists id', s, k. split; [right; exact Hel|auto].
          -- right. exists id', k. split; [right; exact Hel|reflexivity].
      + intros e Hin. apply elem_of_app in Hin as [Hin|Hin]; auto. }
  destruct (Hloop w) as (Hok & Hbars & Hprogs & Hwrites & Hledger).
  destruct (run elements w) as [[[[]|err] w1] e1];
    rewrite outcome_of_run in Hok; [|discriminate].
  rewrite outcome_of_run, effects_of_run. rewrite effects_of_run in *.
  split; [reflexivity|]. split; [|split; [|split]]; eauto.
Qed.

End PassMore.

(** ** Sessions *)

Section SessionFacts.

Lemma Map_get_set_eq entity player m :
  Map_get entity (Map_set entity player m) = Some player.
Proof.
  induction m as [|[e p] m IH]; cbn.
  - rewrite Nat.eqb_refl. reflexivity.
  - destruct (Nat.eqb (entity_key e) (entity_key entity)) eqn:Hk; cbn; rewrite Hk;
      [reflexivity | exact IH].
Qed.

Lemma Map_get_set_ne entity other player m :
  entity_key other <> entity_key entity ->
  Map_get other (Map_set entity player m) = Map_get other m.
Proof.
  intros Hne. induction m as [|[e p] m IH]; cbn.
  - destruct (Nat.eqb_spec (entity_key entity) (entity_key other)); [congruence|reflexivity].
  - destruct (Nat.eqb_spec (entity_key e) (entity_key entity)) as [Hk|Hk]; cbn.
    + destruct (Nat.eqb_spec (entity_key e) (entity_key other)); [congruence|reflexivity].
    + rewrite IH. reflexivity.
Qed.

Lemma Map_get_None entity m :
  Map_get entity m = None <-> entity_key entity ∉ sessionKeys m.
Proof.
  induction m as [|[e p] m IH]; cbn.
  - split; [intros _ Hin; inversion Hin | reflexivity].
  - destruct (Nat.eqb_spec (entity_key e) (entity_key entity)) as [Hk|Hk].
    + split; [discriminate|]. intros Hnot. exfalso. apply Hnot. rewrite Hk. left.
    + rewrite IH. rewrite not_elem_of_cons. split; [auto | tauto].
Qed.

Lemma Map_set_keys entity player m :
  sessionKeys (Map_set entity player m)
  = match Map_get entity m with
    | Some _ => sessionKeys m
    | None => sessionKeys m ++ [entity_key entity]
    end.
Proof.
  induction m as [|[e p] m IH]; cbn; [reflexivity|].
  destruct (Nat.eqb_spec (entity_key e) (entity_key entity)) as [Hk|Hk]; cbn.
  - reflexivity.
  - fold (sessionKeys (Map_set entity player m)). fold (sessionKeys m).
    rewrite IH. destruct (Map_get entity m); reflexivity.
Qed.

Lemma Map_delete_absent entity m :
  entity_key entity ∉ sessionKeys m -> Map_delete entity m = m.
Proof.
  induction m as [|[e p] m IH]; cbn; [reflexivity|].
  intros Hnot. apply not_elem_of_cons in Hnot as [Hne Hnot].
  destruct (Nat.eqb_spec (entity_key e) (entity_key entity)); [congruence|].
  rewrite IH by exact Hnot. reflexivity.
Qed.

Lemma Map_delete_middle entity player kept rest :
  distinctKeys (kept ++ (entity, player) :: rest) ->
  Map_delete entity (kept ++ (entity, player) :: rest) = kept ++ rest.
Proof.
  unfold distinctKeys. rewrite map_app. cbn [map fst].
  intros Hnd. apply NoDup_app in Hnd as (Hkept & Hdisj & Hrest).
  apply NoDup_cons in Hrest as [Hnotrest _].
  assert (entity_key entity ∉ sessionKeys kept) as Hnotkept.
  { intros Hin. apply (Hdisj _ Hin). left. }
  clear Hdisj Hkept.
  induction kept as [|[e p] kept IH]; cbn.
  - rewrite Nat.eqb_refl. apply Map_delete_absent. exact Hnotrest.
  - cbn in Hnotkept. apply not_elem_of_cons in Hnotkept as [Hne Hnotkept].
    destruct (Nat.eqb_spec (entity_key e) (entity_key entity)); [congruence|].
    rewrite IH by exact Hnotkept. reflexivity.
Qed.

(** X18. Interacting with an entity registers a session exactly when the
    entity is a machine entity attached to a block id.  Then the entity's
    session is the interacting player (a former session of the entity is
    replaced, not duplicated), every other session is as before, and one
    initial pass is started for the entity.  For any other entity nothing
    is registered and no pass is started; a machine entity without a block
    id throws. *)
Theorem onPlayerInteractWithEntity_registers sv target player m :
  let r := onPlayerInteractWithEntity sv target player m in
  (server_isMachineEntity sv target = false -> r = (None, m, []))
  /\ (server_isMachineEntity sv target = true ->
      falsy (machineEntityToBlockIdMap sv !! entity_typeId target) = true ->
      r = (Some (NotAttachedToMachine (entity_typeId target)), m, []))
  /\ (forall machineId,
        server_isMachineEntity sv target = true ->
        machineEntityToBlockIdMap sv !! entity_typeId target = Some machineId ->
        machineId <> "" ->
        fst (fst r) = None
        /\ Map_get target (snd (fst r)) = Some player
        /\ (forall other, entity_key other <> entity_key target ->
              Map_get other (snd (fst r)) = Map_get other m)
        /\ (distinctKeys m -> distinctKeys (snd (fst r)))
        /\ (is_Some (Map_get target m) -> length (snd (fst r)) = length m)
        /\ snd r = [ {| pass_definition := machineRegistry sv !! machineId;
                        pass_entity := target; pass_player := player;
                        pass_init := true |} ]).
Proof.
  intros r. subst r. unfold onPlayerInteractWithEntity.
  split; [intros ->; reflexivity|].
  split; [intros -> ->; reflexivity|].
  intros machineId -> Hmap Hne. rewrite Hmap. cbn [negb falsy].
  apply String.eqb_neq in Hne. rewrite Hne. cbn [fst snd].
  split; [reflexivity|]. split; [apply Map_get_set_eq|].
  split; [intros other Hother; apply Map_get_set_ne; exact Hother|].
  split; [|split; [|reflexivity]].
  - unfold distinctKeys. fold (sessionKeys m).
    fold (sessionKeys (Map_set target player m)). rewrite Map_set_keys.
    destruct (Map_get target m) eqn:Hget; [auto|].
    intros Hnd. apply NoDup_app. split; [exact Hnd|].
    split; [|apply NoDup_singleton].
    intros k Hk Hin. apply list_elem_of_singleton in Hin. subst k.
    apply Map_get_None in Hget. contradiction.
  - intros Hsome.
    assert (length (sessionKeys (Map_set target player m)) = length (sessionKeys m)) as Hlen.
    { rewrite Map_set_keys. destruct (Map_get target m); [reflexivity|].
      destruct Hsome as [x Hx]. discriminate. }
    unfold sessionKeys in Hlen. rewrite !length_map in Hlen. exact Hlen.
Qed.

Lemma runInterval_loop_prefix sv pre : forall kept tail,
  distinctKeys (kept ++ pre ++ tail) ->
  allDefined sv pre ->
  runInterval_loop sv (pre ++ tail) (kept ++ pre ++ tail)
  = match runInterval_loop sv tail (kept ++ List.filter (keptByTick sv) pre ++ tail) with
    | (r, m, passes) =>
        (r, m, map (passOfSession sv) (List.filter (keptByTick sv) pre) ++ passes)
    end.
Proof.
  induction pre as [|[entity player] pre IH]; intros kept tail Hnd Hdef.
  - cbn [app List.filter map].
    destruct (runInterval_loop sv tail (kept ++ tail)) as [[r m] passes]. reflexivity.
  - assert (Hdef' : allDefined sv pre).
    { intros s Hs. apply Hdef. right. exact Hs. }
    assert (Hshrink : distinctKeys (kept ++ pre ++ tail)).
    { unfold distinctKeys in *. rewrite map_app in *. cbn [app map] in Hnd.
      apply NoDup_app in Hnd as (H1 & H2 & H3). apply NoDup_cons in H3 as [H3 H4].
      apply NoDup_app. split; [exact H1|]. split; [|exact H4].
      intros k Hk Hin. apply (H2 k Hk). right. exact Hin. }
    cbn [app runInterval_loop List.filter].
    destruct (server_isValid sv entity) eqn:Hvalid; cbn [negb].
    + destruct (Hdef (entity, player)) as [definition Hreg]; [left | exact Hvalid |].
      cbn [fst] in Hreg. rewrite Hreg.
      destruct (persistentEntity definition
                && Nat.eqb (length (server_playersNear sv entity)) 0) eqn:Hgone.
      * assert (keptByTick sv (entity, player) = false) as ->.
        { unfold keptByTick. cbn [fst]. rewrite Hvalid, Hreg, Hgone. reflexivity. }
        rewrite (Map_delete_middle entity player kept (pre ++ tail)) by exact Hnd.
        apply IH; assumption.
      * assert (keptByTick sv (entity, player) = true) as ->.
        { unfold keptByTick. cbn [fst]. rewrite Hvalid, Hreg, Hgone. reflexivity. }
        replace (kept ++ (entity, player) :: pre ++ tail)
          with ((kept ++ [(entity, player)]) ++ pre ++ tail)
          by (rewrite <- app_assoc; reflexivity).
        rewrite IH; [|rewrite <- app_assoc; exact Hnd | exact Hdef'].
        cbn [app map]. rewrite <- app_assoc. cbn [app].
        destruct (runInterval_loop sv tail
                    (kept ++ (entity, player) :: List.filter (keptByTick sv) pre ++ tail))
          as [[r m] passes].
        unfold passOfSession at 2. cbn [fst snd]. rewrite Hreg. reflexivity.
    + assert (keptByTick sv (entity, player) = false) as ->.
      { unfold keptByTick. cbn [fst]. rewrite Hvalid. reflexivity. }
      rewrite (Map_delete_middle entity player kept (pre ++ tail)) by exact Hnd.
      apply IH; assumption.
Qed.

(** X19. A tick in which every valid session entity has a definition
    throws nothing, keeps exactly the sessions whose entity is valid and,
    for a machine with a persistent entity, has a player near, in their
    order, and starts one pass (not an initial one) for each session it
    keeps and none for the ones it evicts. *)
Theorem runInterval_keeps_live_sessions sv m :
  distinctKeys m ->
  allDefined sv m ->
  let r := runInterval sv m in
  r = (None, List.filter (keptByTick sv) m,
       map (passOfSession sv) (List.filter (keptByTick sv) m))
  /\ (forall s, s ∈ snd (fst r) -> s ∈ m /\ server_isValid sv (fst s) = true)
  /\ distinctKeys (snd (fst r))
  /\ (forall p, p ∈ snd r -> pass_init p = false
                             /\ (pass_entity p, pass_player p) ∈ snd (fst r)).
Proof.
  intros Hnd Hdef r. subst r. unfold runInterval.
  pose proof (runInterval_loop_prefix sv m [] [] ) as Hrun.
  rewrite !app_nil_r in Hrun. cbn [app runInterval_loop] in Hrun.
  rewrite Hrun by assumption. rewrite app_nil_r. cbn [fst snd].
  split; [reflexivity|]. split; [|split].
  - intros s Hs. apply list_elem_of_In, filter_In in Hs as [Hin Hkept].
    split; [apply list_elem_of_In; exact Hin|].
    unfold keptByTick in Hkept. apply andb_true_iff in Hkept as [Hv _]. exact Hv.
  - unfold distinctKeys in *. clear Hrun Hdef.
    induction m as [|s m IH]; cbn; [constructor|].
    cbn in Hnd. apply NoDup_cons in Hnd as [Hnot Hnd].
    destruct (keptByTick sv s); cbn; [|auto].
    apply NoDup_cons. split; [|auto].
    intros Hin. apply Hnot.
    apply list_elem_of_In, in_map_iff in Hin as (s' & Hkey & Hin').
    apply filter_In in Hin' as [Hin' _].
    apply list_elem_of_In, in_map_iff. exists s'. auto.
  - intros p Hp. apply list_elem_of_In, in_map_iff in Hp as (s & <- & Hs).
    split; [reflexivity|]. cbn. destruct s. apply list_elem_of_In. exact Hs.
Qed.

(** X20. A valid session entity whose type has no definition in the
    registry makes the tick throw at that session: the sessions in front of
    it have been handled as usual, the session itself and all sessions
    behind it stay in the map whatever their state, and no pass is started
    for them. *)
Theorem runInterval_undefined_definition sv pre entity player post :
  distinctKeys (pre ++ (entity, player) :: post) ->
  allDefined sv pre ->
  server_isValid sv entity = true ->
  machineRegistry sv !! entity_typeId entity = None ->
  runInterval sv (pre ++ (entity, player) :: post)
  = (Some (DefinitionUndefined (entity_typeId entity)),
     List.filter (keptByTick sv) pre ++ (entity, player) :: post,
     map (passOfSession sv) (List.filter (keptByTick sv) pre)).
Proof.
  intros Hnd Hdef Hvalid Hreg. unfold runInterval.
  pose proof (runInterval_loop_prefix sv pre [] ((entity, player) :: post)) as Hrun.
  cbn [app] in Hrun. rewrite Hrun by assumption.
  cbn [runInterval_loop]. rewrite Hvalid, Hreg. cbn [negb].
  rewrite app_nil_r. reflexivity.
Qed.

End SessionFacts.

(** * Properties of the public API *)

Section ApiFacts.
Context `{G : Game}.

Import PublicApi.

(** X21. [init] succeeds once: on a fresh state it stores the options and
    [ensureInitialized] passes from then on; every later [init] throws and
    leaves the first options in place. *)
Theorem init_only_once (first later : InitOptions) (s : ApiState) :
  initOptions s = None ->
  ensureInitialized s = Throws NotInitialized
  /\ fst (init first s) = Returns tt
  /\ initOptions (snd (init first s)) = Some first
  /\ ensureInitialized (snd (init first s)) = Returns tt
  /\ init later (snd (init first s)) = (Throws AlreadyInitialized, snd (init first s)).
Proof.
  intros Hfresh. unfold init, ensureInitialized. rewrite Hfresh. cbn.
  repeat split.
Qed.

Lemma handler_event_not_empty (machine : string) :
  String.eqb (machine +:+ "__updateUiHandler") "" = false.
Proof. destruct machine; reflexivity. Qed.

(** X22. Registration needs [init]: before it, [registerMachine] and
    [registerStorageType] throw and send nothing.  After it,
    [registerMachine] sends one event carrying the description; a machine
    with an [updateUi] handler gets the event name
    [<id>__updateUiHandler], which is what the handler is registered under
    and is never empty (the pass accepts it), a machine without one gets no
    event name and registers no handler. *)
Theorem registerMachine_events (options : MachineDefinition)
    (definition : StorageTypeDefinition) (s : ApiState) :
  (initOptions s = None ->
   registerMachine options s = (Throws NotInitialized, s)
   /\ registerStorageType definition s = (Throws NotInitialized, s))
  /\ (forall o, initOptions s = Some o ->
      fst (registerStorageType definition s) = Returns tt
      /\ dispatched (snd (registerStorageType definition s))
         = dispatched s ++ [ipc_register_storage_type definition])
  /\ (forall o handler, initOptions s = Some o ->
      handlers options ≫= updateUi = Some handler ->
      let event := description_id (description options) +:+ "__updateUiHandler" in
      fst (registerMachine options s) = Returns tt
      /\ dispatched (snd (registerMachine options s))
         = dispatched s
           ++ [ipc_register_machine
                 {| registered_description := description options;
                    registered_updateUiEvent := Some event |}]
      /\ registeredHandlers (snd (registerMachine options s))
         = registeredHandlers s ++ [(event, handler)]
      /\ falsy (Some event) = false)
  /\ (forall o, initOptions s = Some o ->
      handlers options ≫= updateUi = None ->
      fst (registerMachine options s) = Returns tt
      /\ dispatched (snd (registerMachine options s))
         = dispatched s
           ++ [ipc_register_machine
                 {| registered_description := description options;
                    registered_updateUiEvent := None |}]
      /\ registeredHandlers (snd (registerMachine options s)) = registeredHandlers s).
Proof.
  split; [|split; [|split]].
  - intros Hnone. unfold registerMachine, registerStorageType, ensureInitialized.
    rewrite Hnone. split; reflexivity.
  - intros o Ho. unfold registerStorageType, ensureInitialized. rewrite Ho.
    destruct definition. split; reflexivity.
  - intros o handler Ho Hh event. unfold registerMachine, ensureInitialized.
    rewrite Ho, Hh. cbn. repeat split. apply handler_event_not_empty.
  - intros o Ho Hh. unfold registerMachine, ensureInitialized.
    rewrite Ho, Hh. cbn. repeat split.
Qed.

(** X23. Storage round trip: when [setMachineStorage] returns, the value
    was between 0 and [MAX_MACHINE_STORAGE], [getMachineStorage] of the
    same block and type reads it back, and every other block and type
    reads what it read before. *)
Theorem setMachineStorage_then_get loc type value s :
  fst (setMachineStorage loc type value s) = Returns tt ->
  let s' := snd (setMachineStorage loc type value s) in
  0 <= value <= MAX_MACHINE_STORAGE
  /\ getMachineStorage loc type s' = Returns value
  /\ (forall loc' type',
        getBlockUniqueId loc' <> getBlockUniqueId loc \/ type' <> type ->
        getMachineStorage loc' type' s' = getMachineStorage loc' type' s)
  /\ dispatched s' = dispatched s
  /\ initOptions s' = initOptions s.
Proof.
  unfold setMachineStorage.
  destruct (Z.ltb_spec value 0) as [Hneg|Hpos]; [discriminate|].
  destruct (Z.ltb_spec MAX_MACHINE_STORAGE value) as [Hbig|Hsmall]; [discriminate|].
  destruct (storageObjectives s !! type) as [objective|] eqn:Hobj; [|discriminate].
  intros _. cbn [snd].
  split; [lia|]. split; [|split; [|split; reflexivity]].
  - unfold getMachineStorage, getScore. cbn [storageObjectives with_storageObjectives].
    rewrite lookup_insert_eq, lookup_insert_eq. reflexivity.
  - intros loc' type' Hother.
    unfold getMachineStorage, getScore. cbn [storageObjectives with_storageObjectives].
    destruct (decide (type' = type)) as [->|Hty].
    + rewrite lookup_insert_eq, Hobj.
      destruct Hother as [Huid|Hty]; [|contradiction].
      rewrite lookup_insert_ne by congruence. reflexivity.
    + rewrite lookup_insert_ne by congruence. reflexivity.
Qed.

(** X24. [setMachineStorage] returns exactly when the value is between 0
    and [MAX_MACHINE_STORAGE] and the storage type has an objective.
    Otherwise it throws and changes nothing, and the range of the value is
    checked first: an out-of-range value for an unknown type reports the
    range. *)
Theorem setMachineStorage_rejects loc type value s :
  (fst (setMachineStorage loc type value s) = Returns tt
   <-> 0 <= value <= MAX_MACHINE_STORAGE /\ is_Some (storageObjectives s !! type))
  /\ (value < 0 ->
      setMachineStorage loc type value s = (Throws (SetBelowMinimum type value), s))
  /\ (MAX_MACHINE_STORAGE < value ->
      setMachineStorage loc type value s = (Throws (SetAboveMaximum type value), s))
  /\ (0 <= value <= MAX_MACHINE_STORAGE -> storageObjectives s !! type = None ->
      setMachineStorage loc type value s = (Throws (SetUnknownStorageType type), s)).
Proof.
  unfold setMachineStorage.
  destruct (Z.ltb_spec value 0) as [Hneg|Hpos].
  { split; [split; [discriminate | intros [Hr _]; lia]|].
    split; [reflexivity|]. split; intros; [|lia].
    unfold MAX_MACHINE_STORAGE, STORAGE_AMOUNT_PER_BAR_SEGMENT in *. lia. }
  destruct (Z.ltb_spec MAX_MACHINE_STORAGE value) as [Hbig|Hsmall].
  { split; [split; [discriminate | intros [Hr _]; lia]|].
    split; [intros; lia|]. split; [reflexivity | intros; lia]. }
  destruct (storageObjectives s !! type) as [objective|] eqn:Hobj.
  - split; [split; [intros _; split; [lia | eauto] | reflexivity]|].
    split; [intros; lia|]. split; [intros; lia | discriminate].
  - split; [split; [discriminate | intros [_ [x Hx]]; discriminate]|].
    split; [intros; lia|]. split; [intros; lia | reflexivity].
Qed.

(** X25. [setMachineStorage] keeps the stored amounts within bounds: if
    every score of every storage objective is between 0 and
    [MAX_MACHINE_STORAGE], it still is after the call, whatever the call
    was given; and in such a state [getMachineStorage] only returns values
    in that range (0 for a block without a score). *)
Theorem setMachineStorage_keeps_bounds loc type value s :
  storageWithinBounds s ->
  storageWithinBounds (snd (setMachineStorage loc type value s))
  /\ (forall loc' type' v,
        getMachineStorage loc' type' s = Returns v -> 0 <= v <= MAX_MACHINE_STORAGE).
Proof.
  intros Hinv. split.
  - unfold setMachineStorage.
    destruct (Z.ltb_spec value 0) as [Hneg|Hpos]; [exact Hinv|].
    destruct (Z.ltb_spec MAX_MACHINE_STORAGE value) as [Hbig|Hsmall]; [exact Hinv|].
    destruct (storageObjectives s !! type) as [objective|] eqn:Hobj; [|exact Hinv].
    cbn [snd]. intros type' objective' participant v.
    cbn [storageObjectives with_storageObjectives].
    destruct (decide (type' = type)) as [->|Hty].
    + rewrite lookup_insert_eq. intros Heq. injection Heq as <-.
      destruct (decide (participant = getBlockUniqueId loc)) as [->|Hp].
      * rewrite lookup_insert_eq. intros Hv. injection Hv as <-. lia.
      * rewrite lookup_insert_ne by congruence. apply (Hinv type objective). exact Hobj.
    + rewrite lookup_insert_ne by congruence. apply Hinv.
  - intros loc' type' v. unfold getMachineStorage, getScore.
    destruct (storageObjectives s !! type') as [objective|] eqn:Hobj; [|discriminate].
    destruct (objective !! getBlockUniqueId loc') as [v'|] eqn:Hv; cbn [default].
    + intros Heq. injection Heq as <-. apply (Hinv type' objective _ v' Hobj Hv).
    + intros Heq. injection Heq as <-.
      unfold MAX_MACHINE_STORAGE, STORAGE_AMOUNT_PER_BAR_SEGMENT. lia.
Qed.

(** X26. [getItemInMachineSlot] answers an item exactly when the block has
    both a type score and a count score for the slot and the count is not
    0; the item then carries the two scores.  So an item it returns never
    has count 0, and a slot whose count is 0 reads as empty whatever its
    type score. *)
Theorem getItemInMachineSlot_some loc slotId s :
  (forall m, getItemInMachineSlot loc slotId s = Some m
     <-> itemTypeScores s !! (slotId, getBlockUniqueId loc) = Some (typeIndex m)
         /\ itemCountScores s !! (slotId, getBlockUniqueId loc) = Some (count m)
         /\ count m <> 0)
  /\ (itemCountScores s !! (slotId, getBlockUniqueId loc) = Some 0 ->
      getItemInMachineSlot loc slotId s = None).
Proof.
  unfold getItemInMachineSlot. split.
  - intros m.
    destruct (itemTypeScores s !! (slotId, getBlockUniqueId loc)) as [t|].
    2:{ split; [discriminate | intros [Ht _]; discriminate]. }
    destruct (itemCountScores s !! (slotId, getBlockUniqueId loc)) as [c|].
    2:{ split; [discriminate | intros (_ & Hc & _); discriminate]. }
    destruct (Z.eqb_spec c 0) as [Hz|Hnz].
    + split; [discriminate|]. intros (_ & Hc & Hne). congruence.
    + split.
      * intros Heq. injection Heq as <-. cbn. auto.
      * intros (Ht & Hc & _). destruct m as [t' c']. cbn in *. congruence.
  - intros Hzero. rewrite Hzero.
    destruct (itemTypeScores s !! (slotId, getBlockUniqueId loc)); reflexivity.
Qed.

(** X27. [generate] throws for a storage type without objective and sends
    nothing.  Otherwise it returns, and it queues one send of the stored
    amount plus the generated amount exactly when that sum is positive:
    whatever it adds to the outgoing events is a send of a positive
    amount. *)
Theorem generate_sends loc type amount s :
  (storageObjectives s !! type = None ->
   generate loc type amount s = (Throws (GetUnknownStorageType type), s))
  /\ (forall stored, getMachineStorage loc type s = Returns stored ->
      fst (generate loc type amount s) = Returns tt
      /\ dispatched (snd (generate loc type amount s))
         = dispatched s
           ++ (if Z.ltb 0 (stored + amount)
               then [ipc_queue_send loc type (stored + amount)] else []))
  /\ (exists sent,
        dispatched (snd (generate loc type amount s)) = dispatched s ++ sent
        /\ forall l t a, ipc_queue_send l t a ∈ sent -> 0 < a).
Proof.
  unfold generate. split; [|split].
  - intros Hnone. unfold getMachineStorage. rewrite Hnone. reflexivity.
  - intros stored ->. destruct (Z.leb_spec (stored + amount) 0) as [Hle|Hgt].
    + destruct (Z.ltb_spec 0 (stored + amount)); [lia|].
      cbn. rewrite app_nil_r. auto.
    + destruct (Z.ltb_spec 0 (stored + amount)); [|lia]. cbn. auto.
  - destruct (getMachineStorage loc type s) as [stored|e].
    + destruct (Z.leb_spec (stored + amount) 0) as [Hle|Hgt]; cbn [snd].
      * exists []. rewrite app_nil_r. split; [reflexivity|].
        intros l t a Hin. inversion Hin.
      * exists [ipc_queue_send loc type (stored + amount)]. split; [reflexivity|].
        intros l t a Hin. apply list_elem_of_singleton in Hin.
        injection Hin as -> -> ->. exact Hgt.
    + exists []. cbn. rewrite app_nil_r. split; [reflexivity|].
      intros l t a Hin. inversion Hin.
Qed.

End ApiFacts.

(** ** Worked instances in the concrete game *)

#[local] Existing Instance plainGame.

Example blockLocation_entity : blockLocation Sample.entity = Sample.loc.
Proof. reflexivity. Qed.

Example getBlockUniqueId_loc : getBlockUniqueId Sample.loc = Sample.uid.
Proof. reflexivity. Qed.

Example Z_toString_250 : Z_toString 250 = "250".
Proof. reflexivity. Qed.

(** Two foreign items on a bar: the first one is spawned, the second one is
    overwritten by the fill. *)
Example handleBarItems_two_foreign :
  let r := handleBarItems Sample.loc 0 "_disabled" 0 Sample.coveredBarWorld in
  spawned (effects_of r) = [Sample.dirt]
  /\ inventory (world_of r) !! 2 = Some disabledBarItem.
Proof. split; reflexivity. Qed.

(** The pass applies the sum of the two directives, 5 and -2, to the bar:
    250 units show as two segments in the topmost slot, labelled with the
    change 3. *)
Example updateEntityUi_sums_changes :
  let r := updateEntityUi Sample.generator Sample.entity false
             Sample.twoDirectives Sample.coveredBarWorld in
  outcome_of r = Ok tt
  /\ (typeId <$> inventory (world_of r) !! 3)
     = Some "fluffyalien_energisticscore:ui_storage_bar_segment_red2"
  /\ (typeId <$> inventory (world_of r) !! 2)
     = Some "fluffyalien_energisticscore:ui_storage_bar_segment_red0"
  /\ (inventory (world_of r) !! 3 ≫= nameTag)
     = Some "§r§4250/6400 Energy (+3/t)".
Proof. repeat split; reflexivity. Qed.

Lemma plainGame_stacking_ignores_amount : stacking_ignores_amount.
Proof. intros item kind n m. reflexivity. Qed.

Lemma plainGame_placeholder_stacks : placeholder_stacks.
Proof. reflexivity. Qed.

Lemma fillUiBar_segments_witness :
  let r := fillUiBar "seg" "4" "Energy" 250 10 0 emptyWorld in
  0 <= 250 <= 6400
  /\ (typeId <$> inventory (world_of r) !! 13) = Some "seg2"
  /\ (typeId <$> inventory (world_of r) !! 12) = Some "seg0"
  /\ (typeId <$> inventory (world_of r) !! 11) = Some "seg0"
  /\ (typeId <$> inventory (world_of r) !! 10) = Some "seg0"
  /\ exists n0 n1 n2 n3 : Z,
       n3 = 2 /\ n2 = 0 /\ n1 = 0 /\ n0 = 0
       /\ n0 + n1 + n2 + n3 = 250 / 100
       /\ inventory (world_of r) !! (10 + 3)
          = Some {| typeId := "seg" +:+ Z_toString n3; amount := 1;
                    nameTag := Some (barLabel "4" "Energy" 250 0); props := [] |}
       /\ inventory (world_of r) !! (10 + 2)
          = Some {| typeId := "seg" +:+ Z_toString n2; amount := 1;
                    nameTag := Some (barLabel "4" "Energy" 250 0); props := [] |}
       /\ inventory (world_of r) !! (10 + 1)
          = Some {| typeId := "seg" +:+ Z_toString n1; amount := 1;
                    nameTag := Some (barLabel "4" "Energy" 250 0); props := [] |}
       /\ inventory (world_of r) !! 10
          = Some {| typeId := "seg" +:+ Z_toString n0; amount := 1;
                    nameTag := Some (barLabel "4" "Energy" 250 0); props := [] |}.
Proof.
  intros r. split; [lia|]. repeat (split; [reflexivity|]).
  destruct (fillUiBar_segments (G := plainGame) "seg" "4" "Energy" 250 10 0 emptyWorld
              ltac:(lia))
    as (n0 & n1 & n2 & n3 & _ & _ & _ & _ & _ & _ & Hsum & _ & _ & _ & _ & _ & _ & _ & _
        & _ & H3 & H2 & H1 & H0 & _ & E3 & E2 & E1 & E0).
  exists n0, n1, n2, n3.
  assert (K3 : n3 = 2) by (rewrite E3; reflexivity).
  assert (K2 : n2 = 0) by (rewrite E2, K3; reflexivity).
  assert (K1 : n1 = 0) by (rewrite E1, K3, K2; reflexivity).
  assert (K0 : n0 = 0) by (rewrite E0, K3, K2, K1; reflexivity).
  repeat split; assumption.
Defined.

Lemma handleItemSlot_forced_witness :
  handleItemSlot Sample.loc Sample.fuelSlot false Sample.dirtyWorld =
    (Ok tt,
     with_inventory (insert 4 (new_ItemStack "minecraft:charcoal" 3)) Sample.dirtyWorld,
     [SetItem 4 (new_ItemStack "minecraft:charcoal" 3)]).
Proof.
  apply (handleItemSlot_forced (G := plainGame) Sample.loc Sample.fuelSlot false
           Sample.dirtyWorld (new_ItemStack "minecraft:charcoal" 3)).
  - left. reflexivity.
  - reflexivity.
Defined.

Lemma handleItemSlot_player_cleared_witness :
  logicalSlot Sample.loc Sample.fuelSlot
    (world_of (handleItemSlot Sample.loc Sample.fuelSlot false Sample.takenWorld)) = None
  /\ inventory (world_of (handleItemSlot Sample.loc Sample.fuelSlot false Sample.takenWorld))
       !! 4 = Some emptySlotItem
  /\ spawned (effects_of (handleItemSlot Sample.loc Sample.fuelSlot false Sample.takenWorld))
     = [].
Proof.
  apply (handleItemSlot_player_cleared (G := plainGame) Sample.loc Sample.fuelSlot
           Sample.takenWorld (new_ItemStack "minecraft:coal" 7)); reflexivity.
Defined.

Lemma handleItemSlot_incompatible_witness :
  logicalSlot Sample.loc Sample.fuelSlot
    (world_of (handleItemSlot Sample.loc Sample.fuelSlot false Sample.coalWorld))
  = Some {| typeIndex := 0; count := 5 |}
  /\ spawned (effects_of (handleItemSlot Sample.loc Sample.fuelSlot false Sample.coalWorld))
     = [].
Proof.
  destruct (handleItemSlot_incompatible (G := plainGame) Sample.loc Sample.fuelSlot
              Sample.coalWorld emptySlotItem Sample.coal5
              eq_refl eq_refl eq_refl eq_refl) as [Haccept _].
  destruct Haccept as (_ & _ & Hslot & _ & Hspawn).
  - left.
  - reflexivity.
  - split; [exact Hslot | exact Hspawn].
Defined.

Lemma handleItemSlot_idempotent_witness :
  effects_of (handleItemSlot Sample.loc Sample.fuelSlot false Sample.coalWorld)
    = [ClearPlayerSlot 0;
       SetMachineSlot Sample.uid 0 (Some {| typeIndex := 0; count := 5 |}) false]
  /\ effects_of
       (handleItemSlot Sample.loc Sample.fuelSlot false
          (world_of (handleItemSlot Sample.loc Sample.fuelSlot false Sample.coalWorld)))
     = [].
Proof.
  split; [reflexivity|].
  apply (handleItemSlot_idempotent (G := plainGame) Sample.loc Sample.fuelSlot
           Sample.coalWorld plainGame_stacking_ignores_amount
           plainGame_placeholder_stacks eq_refl).
Defined.

Lemma handleProgressIndicator_rejects_witness :
  handleProgressIndicator 5 arrow 17%Q Sample.dirtyWorld
    = (Throw (BadProgressValue arrow 17%Q), Sample.dirtyWorld, [])
  /\ outcome_of (updateEntityUi Sample.furnace Sample.entity false
                   Sample.badResponse Sample.dirtyWorld)
     = Throw (BadProgressValue arrow 17%Q)
  /\ effects_of (updateEntityUi Sample.furnace Sample.entity false
                   Sample.badResponse Sample.dirtyWorld)
     = [SetItem 4 (new_ItemStack "minecraft:charcoal" 3)].
Proof.
  assert (Hbad : ~ (exists n : Z, (17 == inject_Z n)%Q
                      /\ 0 <= n <= PROGRESS_INDICATOR_MAX_VALUES arrow)).
  { intros (n & Hn & Hrange). unfold Qeq in Hn. cbn in Hn, Hrange. lia. }
  destruct (handleProgressIndicator_rejects (G := plainGame) 5 arrow 17%Q
              Sample.dirtyWorld Hbad) as [Hcall Hpass].
  split; [exact Hcall|].
  rewrite (Hpass Sample.furnace Sample.entity false Sample.badResponse
             {[ "progress" := 17%Q ]} "progress"
             [("fuel", itemSlot Sample.fuelSlot)] [("energy", storageBar 0)]
             (with_inventory (insert 4 (new_ItemStack "minecraft:charcoal" 3))
                Sample.dirtyWorld)
             [SetItem 4 (new_ItemStack "minecraft:charcoal" 3)]);
    try reflexivity.
  split; reflexivity.
Defined.

Lemma updateEntityUi_invalid_entity_witness :
  updateEntityUi Sample.furnace Sample.entity false Sample.noResponse Sample.goneWorld
  = (Ok tt, Sample.goneWorld, []).
Proof.
  eapply (updateEntityUi_invalid_entity (G := plainGame)); reflexivity.
Defined.

Lemma updateEntityUi_clears_all_changed_slots_witness :
  machineChangedItemSlots Sample.dirtyWorld !! "9,9,9,nether" = Some [2; 3]
  /\ machineChangedItemSlots
       (world_of (updateEntityUi Sample.furnace Sample.entity false
                    Sample.noResponse Sample.dirtyWorld)) !! "9,9,9,nether" = None.
Proof.
  split; [reflexivity|].
  apply (updateEntityUi_clears_all_changed_slots (G := plainGame)
           Sample.furnace Sample.entity false Sample.noResponse Sample.dirtyWorld);
    reflexivity.
Defined.

(** ** Worked instances of the further properties *)

Lemma fillUiBar_fills_from_the_top_witness :
  let r := fillUiBar "seg" "4" "Energy" 1700 0 0 emptyWorld in
  0 <= 1700
  /\ omap (fun e => match e with SetItem i it => Some (i, typeId it) | _ => None end)
       (effects_of r)
     = [ (3, "seg16"); (2, "seg1"); (1, "seg0"); (0, "seg0") ]
  /\ exists n0 n1 n2 n3 : Z,
       n0 + n1 + n2 + n3 = 17
       /\ (0 < n2 -> n3 = 16) /\ (0 < n1 -> n2 = 16) /\ (0 < n0 -> n1 = 16)
       /\ effects_of r =
          [ SetItem (0 + 3)
              {| typeId := "seg" +:+ Z_toString n3; amount := 1;
                 nameTag := Some (barLabel "4" "Energy" 1700 0); props := [] |};
            SetItem (0 + 2)
              {| typeId := "seg" +:+ Z_toString n2; amount := 1;
                 nameTag := Some (barLabel "4" "Energy" 1700 0); props := [] |};
            SetItem (0 + 1)
              {| typeId := "seg" +:+ Z_toString n1; amount := 1;
                 nameTag := Some (barLabel "4" "Energy" 1700 0); props := [] |};
            SetItem 0
              {| typeId := "seg" +:+ Z_toString n0; amount := 1;
                 nameTag := Some (barLabel "4" "Energy" 1700 0); props := [] |} ].
Proof.
  intros r. split; [lia|]. split; [reflexivity|].
  destruct (fillUiBar_fills_from_the_top (G := plainGame) "seg" "4" "Energy" 1700 0 0
              emptyWorld ltac:(lia))
    as (n0 & n1 & n2 & n3 & _ & H2 & H1 & H0 & _ & _ & Hshown & _ & Hsum).
  exists n0, n1, n2, n3. repeat split; assumption.
Defined.

Lemma handleBarItems_unknown_type_witness :
  outcome_of (handleBarItems Sample.loc 0 "lava" 0 Sample.coveredBarWorld)
    = Throw (UnknownStorageType "lava")
  /\ spawned (effects_of (handleBarItems Sample.loc 0 "lava" 0 Sample.coveredBarWorld))
     = [Sample.dirt].
Proof.
  destruct (handleBarItems_unknown_type (G := plainGame) Sample.loc 0 "lava" 0
              Sample.coveredBarWorld ltac:(discriminate) eq_refl)
    as (Hout & _ & Hspawn & _).
  split; [exact Hout | exact Hspawn].
Defined.

Lemma handleBarItems_registered_witness :
  outcome_of (handleBarItems Sample.loc 0 "energy" 0 Sample.coveredBarWorld) = Ok tt
  /\ (typeId <$> inventory (world_of (handleBarItems Sample.loc 0 "energy" 0
                                        Sample.coveredBarWorld)) !! (0 + 3))
     = Some "fluffyalien_energisticscore:ui_storage_bar_segment_red2".
Proof.
  pose proof (handleBarItems_registered (G := plainGame) Sample.loc 0 "energy" 0
                Sample.coveredBarWorld
                {| st_id := "energy"; category := "energy"; color := red;
                   name := "Energy" |}
                ltac:(discriminate) eq_refl) as Hbar.
  cbv zeta in Hbar. destruct Hbar as (Hout & Htop & _).
  split; [exact Hout|]. rewrite Htop. reflexivity.
Defined.

Lemma handleProgressIndicator_accepts_witness :
  outcome_of (handleProgressIndicator 5 arrow 3%Q Sample.dirtyWorld) = Ok tt
  /\ inventory (world_of (handleProgressIndicator 5 arrow 3%Q Sample.dirtyWorld)) !! 5
     = Some (new_ItemStack "fluffyalien_energisticscore:ui_progress_arrow3" 1).
Proof.
  destruct (handleProgressIndicator_accepts (G := plainGame) 5 arrow 3%Q 3
              Sample.dirtyWorld ltac:(reflexivity) ltac:(cbn; lia))
    as (Hout & Hitem & _).
  split; [exact Hout | exact Hitem].
Defined.

Lemma handleItemSlot_compatible_witness :
  handleItemSlot Sample.loc Sample.fuelSlot false Demo.stackedWorld
  = (Ok tt,
     ledgerSet Sample.loc Sample.fuelSlot (Some {| typeIndex := 0; count := 5 |})
       Demo.stackedWorld,
     [silentWrite Sample.loc Sample.fuelSlot (Some {| typeIndex := 0; count := 5 |})]).
Proof.
  destruct (handleItemSlot_compatible (G := plainGame) Sample.loc Sample.fuelSlot
              Demo.stackedWorld (new_ItemStack "minecraft:coal" 3) Sample.coal5
              eq_refl eq_refl eq_refl eq_refl) as (Hset & _).
  apply (Hset {| typeIndex := 0; count := 3 |}); [reflexivity | cbn; lia].
Defined.

Lemma handleItemSlot_counts_agree_witness :
  exists visible,
    inventory (world_of (handleItemSlot Sample.loc Sample.fuelSlot false Sample.coalWorld))
      !! 4 = Some visible
    /\ forall m,
         logicalSlot Sample.loc Sample.fuelSlot
           (world_of (handleItemSlot Sample.loc Sample.fuelSlot false Sample.coalWorld))
         = Some m -> count m = amount visible.
Proof.
  apply (handleItemSlot_counts_agree (G := plainGame) Sample.loc Sample.fuelSlot false
           Sample.coalWorld).
  reflexivity.
Defined.


(** An arrow with the id [constructor] and no value for it: the pass
    throws, where an arrow with an ordinary id is drawn at 0. *)
Example updateEntityUi_inherited_progress_id :
  updateEntityUi Demo.constructorGauge Sample.entity false Sample.noResponse
    Sample.coveredBarWorld
  = (Throw (BadProgressMember arrow "constructor"), Sample.coveredBarWorld, []).
Proof. reflexivity. Qed.

(** Two directives, 5 and -2, for a bar with the id [valueOf]: the bar is
    drawn disabled. *)
Example updateEntityUi_inherited_bar_id :
  let r := updateEntityUi Demo.valueOfGenerator Sample.entity false
             Demo.valueOfResponse Sample.coveredBarWorld in
  outcome_of r = Ok tt
  /\ inventory (world_of r) !! 3 = Some disabledBarItem
  /\ (inventory (world_of r) !! 3 ≫= nameTag) = Some "§rDisabled".
Proof. repeat split; reflexivity. Qed.

(** The order of the directives for one bar matters: two tenths, six
    tenths and minus eight tenths add up to zero in one order and to a
    number that is not zero in another. *)
Example mergeStorageBars_rounding :
  (change <$> mergeStorageBars (Some Demo.roundedDirectives) !! "energy") = Some 0%float
  /\ (number_truthy <$> (change <$> mergeStorageBars (Some Demo.reorderedDirectives)
                                     !! "energy")) = Some true.
Proof. split; reflexivity. Qed.



Lemma updateEntityUi_empty_response_witness :
  let r := updateEntityUi Demo.gauge Sample.entity false
             {| storageBars := None; progressIndicators := None |}
             Sample.coveredBarWorld in
  outcome_of r = Ok tt
  /\ SetItem 2 disabledBarItem ∈ effects_of r
  /\ SetItem 5 (progressItem flame 0) ∈ effects_of r.
Proof.
  destruct (updateEntityUi_empty_response (G := plainGame) Demo.gauge Sample.entity
              false
              [("energy", storageBar 0); ("burning", progressIndicator flame 5)]
              Sample.coveredBarWorld eq_refl eq_refl)
    as (Hok & Hbars & Hprogs & _).
  - intros id o Hin.
    repeat (apply elem_of_cons in Hin as [Hin|Hin]; [discriminate Hin|]).
    inversion Hin.
  - intros id k i Hin.
    repeat (apply elem_of_cons in Hin as [Hin|Hin];
            [try discriminate Hin; injection Hin as -> _ _; reflexivity|]).
    inversion Hin.
  - split; [exact Hok|]. split.
    + apply (Hbars "energy" 0 2); [left | lia | reflexivity].
    + apply (Hprogs "burning" flame 5); [right; left | reflexivity].
Defined.

Lemma Demo_sessions_distinct : distinctKeys Demo.sessions.
Proof.
  unfold distinctKeys. cbn. apply NoDup_cons. split; [|apply NoDup_singleton].
  intros Hin. apply list_elem_of_singleton in Hin. discriminate Hin.
Qed.

Lemma runInterval_keeps_live_sessions_witness :
  runInterval Demo.server Demo.sessions
  = (None, [(Demo.furnaceEntity, 10%nat)],
     [ {| pass_definition := Some Sample.furnace; pass_entity := Demo.furnaceEntity;
          pass_player := 10%nat; pass_init := false |} ]).
Proof.
  apply (runInterval_keeps_live_sessions Demo.server Demo.sessions Demo_sessions_distinct).
  intros s Hs Hvalid.
  apply elem_of_cons in Hs as [-> | Hs]; [eexists; reflexivity|].
  apply list_elem_of_singleton in Hs. subst s. discriminate Hvalid.
Defined.

Lemma runInterval_undefined_definition_witness :
  runInterval Demo.server
    ([(Demo.furnaceEntity, 10%nat)] ++ (Demo.strayEntity, 12%nat)
       :: [(Demo.staleEntity, 11%nat)])
  = (Some (DefinitionUndefined "example:unknown"),
     [ (Demo.furnaceEntity, 10%nat); (Demo.strayEntity, 12%nat);
       (Demo.staleEntity, 11%nat) ],
     [ {| pass_definition := Some Sample.furnace; pass_entity := Demo.furnaceEntity;
          pass_player := 10%nat; pass_init := false |} ]).
Proof.
  apply (runInterval_undefined_definition Demo.server
           [(Demo.furnaceEntity, 10%nat)] Demo.strayEntity 12%nat
           [(Demo.staleEntity, 11%nat)]).
  - unfold distinctKeys. cbn. apply NoDup_ListNoDup.
    repeat constructor; cbn; intuition discriminate.
  - intros s Hs Hvalid. apply list_elem_of_singleton in Hs. subst s.
    eexists. reflexivity.
  - reflexivity.
  - reflexivity.
Defined.

Lemma init_only_once_witness :
  PublicApi.init {| PublicApi.namespace := "second" |}
    (snd (PublicApi.init {| PublicApi.namespace := "first" |} PublicApi.freshState))
  = (PublicApi.Throws PublicApi.AlreadyInitialized,
     snd (PublicApi.init {| PublicApi.namespace := "first" |} PublicApi.freshState)).
Proof.
  apply (init_only_once {| PublicApi.namespace := "first" |}
           {| PublicApi.namespace := "second" |} PublicApi.freshState).
  reflexivity.
Defined.

Lemma setMachineStorage_then_get_witness :
  PublicApi.getMachineStorage Sample.loc "energy"
    (snd (PublicApi.setMachineStorage Sample.loc "energy" 250 PublicApi.freshState))
  = PublicApi.Returns 250.
Proof.
  apply (setMachineStorage_then_get (G := plainGame) Sample.loc "energy" 250
           PublicApi.freshState).
  reflexivity.
Defined.

Lemma freshState_within_bounds : PublicApi.storageWithinBounds PublicApi.freshState.
Proof.
  intros type objective participant v Hobj Hv.
  unfold PublicApi.freshState in Hobj. cbn [PublicApi.storageObjectives] in Hobj.
  apply lookup_singleton_Some in Hobj as [_ <-].
  rewrite lookup_empty in Hv. discriminate Hv.
Qed.

Lemma setMachineStorage_keeps_bounds_witness :
  PublicApi.storageWithinBounds
    (snd (PublicApi.setMachineStorage Sample.loc "energy" 250 PublicApi.freshState)).
Proof.
  apply (setMachineStorage_keeps_bounds (G := plainGame) Sample.loc "energy" 250
           PublicApi.freshState freshState_within_bounds).
Defined.
